(** * rhino-editor: the attachment-figure node (src/exports/extensions/attachment.ts)

    A shallow embedding of the attachment extension: the class helpers
    ([canPreview], [toExtension], [toType]), the serializer [renderHTML],
    the per-attribute parse rules of [addAttributes], the load handler
    of the node view and the [setAttachment] command, followed by the
    properties of the specification that concern them.

    What the extension calls of the platform and of the editor libraries
    ([JSON], regular expressions, the document tree and transactions of
    prosemirror, [mergeAttributes] of @tiptap/core) is modelled next to
    the code that calls it, as far as that code depends on it.  A
    computation that can throw returns a [result]. *)

From Stdlib Require Import ZArith String Ascii List Bool Lia.
From Stdlib Require Import Decimal DecimalFacts DecimalString DecimalZ.
From stdpp Require Import gmap strings.

Local Open Scope string_scope.
Local Open Scope Z_scope.

(* ===================================================================== *)
(** ** JavaScript values *)
(* ===================================================================== *)

(** The values that flow through node attributes and JSON blobs.  Numbers
    are restricted to integers; objects and arrays keep the order of
    their entries, as [JSON.stringify] does. *)
Unset Elimination Schemes.
Inductive jsval : Type :=
| VUndefined
| VNull
| VBool (b : bool)
| VNum (n : Z)
| VStr (s : string)
| VArr (items : list jsval)
| VObj (fields : list (string * jsval)).
Set Elimination Schemes.

(** A computation either completes with a value or throws. *)
Inductive error : Type :=
| TypeError
| SyntaxError
| RangeError
| OtherError.

Inductive result (A : Type) : Type :=
| Ok (a : A)
| Throw (e : error).
Arguments Ok {A} a.
Arguments Throw {A} e.

Definition bind {A B : Type} (m : result A) (f : A -> result B) : result B :=
  match m with
  | Ok a => f a
  | Throw e => Throw e
  end.

Notation "'let*' x := m 'in' k" := (bind m (fun x => k))
  (at level 10, x name, m at level 100, k at level 200).

(** ToBoolean. *)
Definition truthy (v : jsval) : bool :=
  match v with
  | VUndefined | VNull => false
  | VBool b => b
  | VNum n => negb (n =? 0)
  | VStr s => negb (String.eqb s "")
  | VArr _ | VObj _ => true
  end.

(** [x || y] on values. *)
Definition js_or (x y : jsval) : jsval := if truthy x then x else y.

(** [x == null]: true of [null] and [undefined] only. *)
Definition nullish (v : jsval) : bool :=
  match v with
  | VUndefined | VNull => true
  | _ => false
  end.

(* ===================================================================== *)
(** ** Regular expressions *)
(* ===================================================================== *)

(** The fragment of the regular-expression syntax that the two patterns
    of the file use.  [Group] is a capturing group. *)
Inductive regex : Type :=
| Eps
| Lit (c : ascii)
| PlusWord
| Bol
| Eol
| Cat (r1 r2 : regex)
| Alt (r1 r2 : regex)
| Opt (r : regex)
| Group (r : regex).

(** [\w] *)
Definition is_word (c : ascii) : bool :=
  let n := nat_of_ascii c in
  ((48 <=? n) && (n <=? 57) || (65 <=? n) && (n <=? 90)
   || (97 <=? n) && (n <=? 122) || (n =? 95))%nat.

(** The text consumed between [s] and its suffix [rest]. *)
Definition consumed (s rest : string) : string :=
  substring 0 (String.length s - String.length rest) s.

Definition orelse {A : Type} (x y : option A) : option A :=
  match x with
  | Some a => Some a
  | None => y
  end.

(** Greedy [\w*] with backtracking: the longest run first. *)
Fixpoint many_word (s : string) (k : string -> option (list string))
  : option (list string) :=
  match s with
  | String c s' =>
      if is_word c then orelse (many_word s' k) (k s) else k s
  | EmptyString => k s
  end.

(** A backtracking matcher in continuation-passing style.  [bol] tells
    whether the current position is the start of the subject, [caps]
    holds the groups closed so far, in closing order. *)
Fixpoint rmatch (r : regex) (bol : bool) (s : string) (caps : list string)
    (k : bool -> string -> list string -> option (list string))
  : option (list string) :=
  match r with
  | Eps => k bol s caps
  | Lit c =>
      match s with
      | String c' s' => if Ascii.eqb c c' then k false s' caps else None
      | EmptyString => None
      end
  | PlusWord =>
      match s with
      | String c' s' =>
          if is_word c' then many_word s' (fun rest => k false rest caps)
          else None
      | EmptyString => None
      end
  | Bol => if bol then k bol s caps else None
  | Eol =>
      match s with
      | EmptyString => k bol s caps
      | String _ _ => None
      end
  | Cat r1 r2 =>
      rmatch r1 bol s caps (fun b' s' caps' => rmatch r2 b' s' caps' k)
  | Alt r1 r2 => orelse (rmatch r1 bol s caps k) (rmatch r2 bol s caps k)
  | Opt r1 => orelse (rmatch r1 bol s caps k) (k bol s caps)
  | Group r1 =>
      rmatch r1 bol s caps
        (fun b' s' caps' => k b' s' (caps' ++ [consumed s s'])%list)
  end.

(** The leftmost match, tried at every start position in turn. *)
Fixpoint search (r : regex) (bol : bool) (s : string) : option (list string) :=
  match rmatch r bol s [] (fun _ _ caps => Some caps) with
  | Some caps => Some caps
  | None =>
      match s with
      | String _ s' => search r false s'
      | EmptyString => None
      end
  end.

(** [s.match(r)] for a pattern without the global flag: [None] is
    [null], otherwise the captured groups. *)
Definition str_match (s : string) (r : regex) : option (list string) :=
  search r true s.

Fixpoint lits (s : string) : regex :=
  match s with
  | EmptyString => Eps
  | String c EmptyString => Lit c
  | String c s' => Cat (Lit c) (lits s')
  end.

(** [String.prototype.toLowerCase] on ASCII text. *)
Definition lower_char (c : ascii) : ascii :=
  let n := nat_of_ascii c in
  if ((65 <=? n) && (n <=? 90))%nat then ascii_of_nat (n + 32) else c.

Fixpoint toLowerCase (s : string) : string :=
  match s with
  | EmptyString => EmptyString
  | String c s' => String (lower_char c) (toLowerCase s')
  end.

(* ===================================================================== *)
(** ** Class helpers *)
(* ===================================================================== *)

(** [/^image(\/(gif|png|jpe?g)|$)/] *)
Definition isPreviewable : regex :=
  Cat Bol
    (Cat (lits "image")
       (Group
          (Alt
             (Cat (Lit "/")
                (Group
                   (Alt (lits "gif")
                      (Alt (lits "png")
                         (Cat (lits "jp") (Cat (Opt (Lit "e")) (Lit "g")))))))
             Eol))).

(** [previewable || contentType?.match(isPreviewable) != null] *)
Definition canPreview (previewable : bool) (contentType : option string) : bool :=
  previewable ||
  match contentType with
  | None => false
  | Some ct =>
      match str_match ct isPreviewable with
      | Some _ => true
      | None => false
      end
  end.

(** The pattern as the specification writes it, [^image/(gif|png|jpe?g)$],
    and the reading of [canPreview] that goes with it. *)
Definition spec_isPreviewable : regex :=
  Cat Bol
    (Cat (lits "image/")
       (Cat
          (Group
             (Alt (lits "gif")
                (Alt (lits "png")
                   (Cat (lits "jp") (Cat (Opt (Lit "e")) (Lit "g"))))))
          Eol)).

Definition spec_canPreview (previewable : bool) (contentType : option string) : bool :=
  previewable ||
  match contentType with
  | None => false
  | Some ct =>
      match str_match ct spec_isPreviewable with
      | Some _ => true
      | None => String.eqb ct "image"
      end
  end.

(** [/\.(\w+)$/] *)
Definition extensionPattern : regex :=
  Cat (Lit ".") (Cat (Group PlusWord) Eol).

(** [fileName.match(/\.(\w+)$/)?.[1].toLowerCase()]: the optional chain
    yields [undefined] as a whole when there is no match. *)
Definition matchedExtension (fileName : string) : option string :=
  match str_match fileName extensionPattern with
  | None => None
  | Some caps => Some (toLowerCase (nth 0 caps ""))
  end.

(** [toExtension]: an empty (or absent) file name gives the empty
    string; otherwise the prefix is concatenated with the result of the
    optional chain, [undefined] included. *)
Definition toExtension (fileName : option string) : string :=
  match fileName with
  | None => ""
  | Some fn =>
      if String.eqb fn "" then ""
      else "attachment--" +:+
           match matchedExtension fn with
           | Some ext => ext
           | None => "undefined"
           end
  end.

Definition toType (content : option string) (previewable : bool) : string :=
  if previewable then "attachment--preview"
  else
    match content with
    | Some c => if String.eqb c "" then "attachment--file" else "attachment--content"
    | None => "attachment--file"
    end.

(** The helpers as they are called with attribute values: [match] is a
    method of strings only, so a value that is neither a string nor
    nullish makes the call throw once it is reached. *)
Definition canPreviewJS (previewable contentType : jsval) : result bool :=
  if truthy previewable then Ok true
  else
    match contentType with
    | VStr s => Ok (canPreview false (Some s))
    | VUndefined | VNull => Ok false
    | _ => Throw TypeError
    end.

Definition toExtensionJS (fileName : jsval) : result string :=
  if truthy fileName then
    match fileName with
    | VStr s => Ok (toExtension (Some s))
    | _ => Throw TypeError
    end
  else Ok "".

Definition toTypeJS (content : jsval) (previewable : bool) : string :=
  if previewable then "attachment--preview"
  else if truthy content then "attachment--content"
  else "attachment--file".

(** The fragments of file names used to state what [toExtension] does. *)
Fixpoint all_word (s : string) : bool :=
  match s with
  | EmptyString => true
  | String c s' => is_word c && all_word s'
  end.

Fixpoint has_dot (s : string) : bool :=
  match s with
  | EmptyString => false
  | String c s' => Ascii.eqb "." c || has_dot s'
  end.

(* ===================================================================== *)
(** ** JSON *)
(* ===================================================================== *)

(** [JSON.stringify] and [JSON.parse] on the values above.  Numbers are
    integers: a number with a fraction or an exponent is outside of the
    model and [JSON_parse] rejects it, as it rejects escapes of code
    units above 255. *)

Definition dquote : ascii := "034"%char.
Definition backslash : ascii := "092"%char.

Definition Z_to_string (n : Z) : string := NilEmpty.string_of_int (Z.to_int n).

Definition hex_char (n : nat) : ascii :=
  if (n <? 10)%nat then ascii_of_nat (48 + n) else ascii_of_nat (87 + n).

(** QuoteJSONString, one code unit at a time. *)
Definition escape_char (c : ascii) : string :=
  let n := nat_of_ascii c in
  if (n =? 8)%nat then "\b"
  else if (n =? 9)%nat then "\t"
  else if (n =? 10)%nat then "\n"
  else if (n =? 12)%nat then "\f"
  else if (n =? 13)%nat then "\r"
  else if (n =? 34)%nat then String backslash (String dquote "")
  else if (n =? 92)%nat then "\\"
  else if (n <? 32)%nat then
    "\u00" +:+ String (hex_char (n / 16)) (String (hex_char (n mod 16)) "")
  else String c "".

Fixpoint escape (s : string) : string :=
  match s with
  | EmptyString => ""
  | String c s' => escape_char c +:+ escape s'
  end.

Definition quote (s : string) : string :=
  String dquote (escape s +:+ String dquote "").

Fixpoint join (sep : string) (l : list string) : string :=
  match l with
  | [] => ""
  | [x] => x
  | x :: l' => x +:+ sep +:+ join sep l'
  end.

(** [JSON.stringify(value)] for a value that is not [undefined] itself:
    a property whose value is [undefined] is left out, an [undefined]
    array element is written as [null]. *)
Fixpoint JSON_stringify (v : jsval) : string :=
  match v with
  | VUndefined | VNull => "null"
  | VBool true => "true"
  | VBool false => "false"
  | VNum n => Z_to_string n
  | VStr s => quote s
  | VArr items =>
      "[" +:+ join "," (map JSON_stringify items) +:+ "]"
  | VObj fields =>
      "{" +:+
      join ","
        ((fix members (l : list (string * jsval)) : list string :=
            match l with
            | [] => []
            | (k, VUndefined) :: l' => members l'
            | (k, x) :: l' => (quote k +:+ ":" +:+ JSON_stringify x) :: members l'
            end) fields) +:+
      "}"
  end.

(** The values a flat blob holds, and the text of one of its members. *)
Definition json_scalar (v : jsval) : bool :=
  match v with
  | VNull | VBool _ | VNum _ | VStr _ => true
  | _ => false
  end.

Definition member_text (kv : string * jsval) : string :=
  quote (fst kv) +:+ ":" +:+ JSON_stringify (snd kv).

Definition is_ws (c : ascii) : bool :=
  let n := nat_of_ascii c in
  ((n =? 32) || (n =? 9) || (n =? 10) || (n =? 13))%nat.

Fixpoint skip_ws (s : string) : string :=
  match s with
  | String c s' => if is_ws c then skip_ws s' else s
  | EmptyString => s
  end.

Definition is_digit (c : ascii) : bool :=
  let n := nat_of_ascii c in ((48 <=? n) && (n <=? 57))%nat.

(** The longest run of digits at the start, and what follows it. *)
Fixpoint take_digits (s : string) : string * string :=
  match s with
  | String c s' =>
      if is_digit c then
        let '(ds, rest) := take_digits s' in (String c ds, rest)
      else ("", s)
  | EmptyString => ("", "")
  end.

Definition hex_value (c : ascii) : option nat :=
  let n := nat_of_ascii c in
  if ((48 <=? n) && (n <=? 57))%nat then Some (n - 48)%nat
  else if ((97 <=? n) && (n <=? 102))%nat then Some (n - 87)%nat
  else if ((65 <=? n) && (n <=? 70))%nat then Some (n - 55)%nat
  else None.

(** The character a one-letter escape stands for. *)
Definition unescape (e : ascii) : option ascii :=
  if Ascii.eqb e dquote then Some dquote
  else if Ascii.eqb e backslash then Some backslash
  else if Ascii.eqb e "/" then Some "/"%char
  else if Ascii.eqb e "b" then Some (ascii_of_nat 8)
  else if Ascii.eqb e "f" then Some (ascii_of_nat 12)
  else if Ascii.eqb e "n" then Some (ascii_of_nat 10)
  else if Ascii.eqb e "r" then Some (ascii_of_nat 13)
  else if Ascii.eqb e "t" then Some (ascii_of_nat 9)
  else None.

Definition prepend (c : ascii) (r : option (string * string))
  : option (string * string) :=
  match r with
  | Some (s, rest) => Some (String c s, rest)
  | None => None
  end.

(** A string literal after its opening quote: the text and what follows
    the closing quote. *)
Fixpoint parse_string_body (s : string) : option (string * string) :=
  match s with
  | EmptyString => None
  | String c s' =>
      if Ascii.eqb c dquote then Some ("", s')
      else if Ascii.eqb c backslash then
        match s' with
        | String e s'' =>
            match unescape e with
            | Some c' => prepend c' (parse_string_body s'')
            | None =>
                if Ascii.eqb e "u" then
                  match s'' with
                  | String h1 (String h2 (String h3 (String h4 rest))) =>
                      match hex_value h1, hex_value h2, hex_value h3, hex_value h4 with
                      | Some O, Some O, Some n3, Some n4 =>
                          prepend (ascii_of_nat (16 * n3 + n4))
                            (parse_string_body rest)
                      | _, _, _, _ => None
                      end
                  | _ => None
                  end
                else None
            end
        | EmptyString => None
        end
      else if (nat_of_ascii c <? 32)%nat then None
      else prepend c (parse_string_body s')
  end.

(** The digits of a number: at least one, without a leading zero, and
    neither a fraction nor an exponent after them. *)
Definition parse_unsigned (negative : bool) (s : string) : option (jsval * string) :=
  let '(ds, rest) := take_digits s in
  let fractional :=
    match rest with
    | String c _ => Ascii.eqb c "." || Ascii.eqb c "e" || Ascii.eqb c "E"
    | EmptyString => false
    end in
  let leading_zero :=
    match ds with
    | String c ds' => Ascii.eqb c "0" && negb (String.eqb ds' "")
    | EmptyString => false
    end in
  if fractional || leading_zero then None
  else
    match ds, NilEmpty.uint_of_string ds with
    | String _ _, Some d =>
        Some (VNum (if negative then - Z.of_uint d else Z.of_uint d), rest)
    | _, _ => None
    end.

(** A number: an optional minus sign and its digits. *)
Definition parse_number (s : string) : option (jsval * string) :=
  match s with
  | String c s' =>
      if Ascii.eqb c "-" then parse_unsigned true s' else parse_unsigned false s
  | EmptyString => None
  end.

Fixpoint strip_prefix (word s : string) : option string :=
  match word with
  | EmptyString => Some s
  | String a word' =>
      match s with
      | String b s' => if Ascii.eqb a b then strip_prefix word' s' else None
      | EmptyString => None
      end
  end.

(** A literal name after its first letter. *)
Definition expect (word : string) (s : string) (v : jsval)
  : option (jsval * string) :=
  match strip_prefix word s with
  | Some rest => Some (v, rest)
  | None => None
  end.

Fixpoint parse_value (fuel : nat) (s : string) : option (jsval * string) :=
  match fuel with
  | O => None
  | S fuel' =>
      match skip_ws s with
      | EmptyString => None
      | String c s1 =>
          if is_digit c || Ascii.eqb c "-" then parse_number (String c s1)
          else if Ascii.eqb c dquote then
            match parse_string_body s1 with
            | Some (text, rest) => Some (VStr text, rest)
            | None => None
            end
          else if Ascii.eqb c "n" then expect "ull" s1 VNull
          else if Ascii.eqb c "t" then expect "rue" s1 (VBool true)
          else if Ascii.eqb c "f" then expect "alse" s1 (VBool false)
          else if Ascii.eqb c "[" then
            match skip_ws s1 with
            | String "]" rest => Some (VArr [], rest)
            | _ =>
                match parse_elements fuel' s1 with
                | Some (items, rest) => Some (VArr items, rest)
                | None => None
                end
            end
          else if Ascii.eqb c "{" then
            match skip_ws s1 with
            | String "}" rest => Some (VObj [], rest)
            | _ =>
                match parse_members fuel' s1 with
                | Some (fields, rest) => Some (VObj fields, rest)
                | None => None
                end
            end
          else None
      end
  end
with parse_elements (fuel : nat) (s : string) : option (list jsval * string) :=
  match fuel with
  | O => None
  | S fuel' =>
      match parse_value fuel' s with
      | Some (v, rest) =>
          match skip_ws rest with
          | String "," rest' =>
              match parse_elements fuel' rest' with
              | Some (vs, rest'') => Some (v :: vs, rest'')
              | None => None
              end
          | String "]" rest' => Some ([v], rest')
          | _ => None
          end
      | None => None
      end
  end
with parse_members (fuel : nat) (s : string)
  : option (list (string * jsval) * string) :=
  match fuel with
  | O => None
  | S fuel' =>
      match skip_ws s with
      | String c s1 =>
          if Ascii.eqb c dquote then
            match parse_string_body s1 with
            | Some (key, rest) =>
                match skip_ws rest with
                | String ":" rest1 =>
                    match parse_value fuel' rest1 with
                    | Some (v, rest2) =>
                        match skip_ws rest2 with
                        | String "," rest3 =>
                            match parse_members fuel' rest3 with
                            | Some (fs, rest4) => Some ((key, v) :: fs, rest4)
                            | None => None
                            end
                        | String "}" rest3 => Some ([(key, v)], rest3)
                        | _ => None
                        end
                    | None => None
                    end
                | _ => None
                end
            | None => None
            end
          else None
      | EmptyString => None
      end
  end.

(** [JSON.parse(text)]: a value followed by white space only, or a
    [SyntaxError]. *)
Definition JSON_parse (text : string) : result jsval :=
  match parse_value (2 * String.length text + 2) text with
  | Some (v, rest) =>
      match skip_ws rest with
      | EmptyString => Ok v
      | String _ _ => Throw SyntaxError
      end
  | None => Throw SyntaxError
  end.

(** [value[key]]: reading a property of [null] or [undefined] throws; a
    later entry of an object shadows an earlier one of the same key;
    no other value has one of the properties read here. *)
Fixpoint lookup_field (fields : list (string * jsval)) (key : string) : jsval :=
  match fields with
  | [] => VUndefined
  | (k, v) :: fields' =>
      match lookup_field fields' key with
      | VUndefined => if String.eqb k key then v else VUndefined
      | later => later
      end
  end.

Definition get_prop (v : jsval) (key : string) : result jsval :=
  match v with
  | VUndefined | VNull => Throw TypeError
  | VObj fields => Ok (lookup_field fields key)
  | _ => Ok VUndefined
  end.

(* ===================================================================== *)
(** ** The document tree of the editor *)
(* ===================================================================== *)

(** Nodes, positions and resolved positions follow prosemirror-model:
    a text node has the size of its text, a leaf node size 1, any other
    node the size of its content plus its two tokens. *)
Record node_type : Type := { name : string; isLeaf : bool }.

Unset Elimination Schemes.
Inductive pmnode : Type :=
| PText (text : string)
| PNode (type : node_type) (attrs : gmap string jsval) (content : list pmnode).
Set Elimination Schemes.

Definition type_name (n : pmnode) : string :=
  match n with
  | PText _ => "text"
  | PNode t _ _ => name t
  end.

Definition isText (n : pmnode) : bool :=
  match n with
  | PText _ => true
  | PNode _ _ _ => false
  end.

Definition node_attrs (n : pmnode) : gmap string jsval :=
  match n with
  | PText _ => ∅
  | PNode _ a _ => a
  end.

Definition node_content (n : pmnode) : list pmnode :=
  match n with
  | PText _ => []
  | PNode _ _ c => c
  end.

Fixpoint nodeSize (n : pmnode) : Z :=
  match n with
  | PText s => Z.of_nat (String.length s)
  | PNode t _ c =>
      if isLeaf t then 1
      else 2 + (fix size (l : list pmnode) : Z :=
                  match l with
                  | [] => 0
                  | x :: l' => nodeSize x + size l'
                  end) c
  end.

(** [fragment.size] *)
Fixpoint fragment_size (l : list pmnode) : Z :=
  match l with
  | [] => 0
  | x :: l' => nodeSize x + fragment_size l'
  end.

(** [node.content.size] *)
Definition content_size (n : pmnode) : Z := fragment_size (node_content n).

(** The loop of [Fragment.findIndex] (with [round = -1]): the index and
    start offset of the child that contains [pos], or of the child that
    starts at [pos]. *)
Fixpoint findIndex_loop (l : list pmnode) (i : nat) (curPos pos : Z) : nat * Z :=
  match l with
  | [] => (i, curPos)
  | cur :: l' =>
      let end_ := curPos + nodeSize cur in
      if end_ >=? pos then
        if end_ =? pos then (S i, end_) else (i, curPos)
      else findIndex_loop l' (S i) end_ pos
  end.

Definition findIndex (l : list pmnode) (pos : Z) : result (nat * Z) :=
  if pos =? 0 then Ok (O, pos)
  else if pos =? fragment_size l then Ok (length l, pos)
  else if (pos >? fragment_size l) || (pos <? 0) then Throw RangeError
  else Ok (findIndex_loop l 0 0 pos).

(** A resolved position: the path holds, per depth, the ancestor node,
    the index into it and the offset at which the indexed child starts. *)
Record ResolvedPos : Type :=
  { pos : Z; path : list (pmnode * nat * Z); parentOffset : Z }.

(** The loop of [ResolvedPos.resolve].  Every descent lowers the parent
    offset, so [fuel] above the position is never used up. *)
Fixpoint resolve_loop (fuel : nat) (node : pmnode) (start parentOffset : Z)
    (path : list (pmnode * nat * Z)) : result (list (pmnode * nat * Z) * Z) :=
  match fuel with
  | O => Throw RangeError
  | S fuel' =>
      let* io := findIndex (node_content node) parentOffset in
      let '(index, offset) := io in
      let rem := parentOffset - offset in
      let path' := (path ++ [(node, index, start + offset)])%list in
      if rem =? 0 then Ok (path', parentOffset)
      else
        match nth_error (node_content node) index with
        | None => Throw RangeError
        | Some child =>
            if isText child then Ok (path', parentOffset)
            else resolve_loop fuel' child (start + offset + 1) (rem - 1) path'
        end
  end.

(** [doc.resolve(pos)] *)
Definition resolve (doc : pmnode) (p : Z) : result ResolvedPos :=
  if (0 <=? p) && (p <=? content_size doc) then
    let* r := resolve_loop (S (Z.to_nat p)) doc 0 p [] in
    Ok {| pos := p; path := fst r; parentOffset := snd r |}
  else Throw RangeError.

(** [$pos.depth] *)
Definition depth (rp : ResolvedPos) : nat := (length (path rp) - 1)%nat.

(** [path[d * 3]] and the start of the node at depth [d], from the
    offset stored one level up. *)
Definition path_node (pth : list (pmnode * nat * Z)) (d : nat) : option pmnode :=
  match nth_error pth d with
  | Some (n, _, _) => Some n
  | None => None
  end.

Definition path_start (pth : list (pmnode * nat * Z)) (d : nat) : Z :=
  match d with
  | O => 0
  | S d' =>
      match nth_error pth d' with
      | Some (_, _, offset) => offset + 1
      | None => 0
      end
  end.

(** [$pos.node(d)] for a non-negative [d]: [None] is [undefined]. *)
Definition rp_node (rp : ResolvedPos) (d : nat) : option pmnode :=
  path_node (path rp) d.

(** [$pos.start(d)] *)
Definition rp_start (rp : ResolvedPos) (d : nat) : Z :=
  path_start (path rp) d.

(** [$pos.end()], at the depth of the position itself. *)
Definition rp_end (rp : ResolvedPos) : Z :=
  rp_start rp (depth rp) +
  match rp_node rp (depth rp) with
  | Some n => content_size n
  | None => 0
  end.

(** A selection by its two ends; [from] and [to] are the lower and the
    upper one, as for text, node and all-selections. *)
Record Selection : Type := { anchor : Z; head : Z }.

Definition sel_from (s : Selection) : Z := Z.min (anchor s) (head s).
Definition sel_to (s : Selection) : Z := Z.max (anchor s) (head s).

Record EditorState : Type := { doc : pmnode; selection : Selection }.




(* ===================================================================== *)
(** ** Transactions *)
(* ===================================================================== *)

(** A transaction records the replacements requested of it, in order, and
    the selection update asked for.  How the editor fits a slice into the
    tree is not modelled. *)
Record Step : Type :=
  { step_from : Z; step_to : Z; step_content : list pmnode }.

Inductive SelectionUpdate : Type :=
| InsertionEnd (startLen : Z) (bias : Z).

Record Transaction : Type :=
  { tr_doc : pmnode;
    tr_steps : list Step;
    tr_selection : option SelectionUpdate }.

Definition in_range (d : pmnode) (p : Z) : bool :=
  (0 <=? p) && (p <=? content_size d).

(** [tr.replaceWith(from, to, nodes)]: nothing to do for an empty slice
    over an empty range; otherwise both ends are resolved in the
    document, which throws outside of it, and one step is added. *)
Definition tr_replaceWith (tr : Transaction) (from to : Z)
    (nodes : list pmnode) : result Transaction :=
  if (from =? to) && (fragment_size nodes =? 0) then Ok tr
  else if in_range (tr_doc tr) from && in_range (tr_doc tr) to then
    Ok {| tr_doc := tr_doc tr;
          tr_steps := (tr_steps tr ++
                       [{| step_from := from; step_to := to;
                           step_content := nodes |}])%list;
          tr_selection := tr_selection tr |}
  else Throw RangeError.

(** [tr.insert(pos, nodes)] is [tr.replaceWith(pos, pos, nodes)]. *)
Definition tr_insert (tr : Transaction) (p : Z) (nodes : list pmnode)
  : result Transaction :=
  tr_replaceWith tr p p nodes.

(** Modelled from the spec: [selectionToInsertionEnd] of
    src/internal/selection-to-insertion-end is not part of the sources
    at hand.  The specification has it adjust the selection recorded in
    the transaction so that the cursor lands at the end of the content
    inserted by the steps from [startLen] on; the model records that
    request with its bias. *)
Definition selectionToInsertionEnd (tr : Transaction) (startLen bias : Z)
  : Transaction :=
  {| tr_doc := tr_doc tr;
     tr_steps := tr_steps tr;
     tr_selection := Some (InsertionEnd startLen bias) |}.

(* ===================================================================== *)
(** ** The attachment-figure node *)
(* ===================================================================== *)

(** [attrs[key]] *)
Definition attr (a : gmap string jsval) (key : string) : jsval :=
  match a !! key with
  | Some v => v
  | None => VUndefined
  end.

(** The defaults declared by [addAttributes]. *)
Definition attributeDefaults : list (string * jsval) :=
  [ ("attachmentId", VNull);
    ("caption", VStr "");
    ("progress", VNum 100);
    ("sgid", VStr "");
    ("src", VStr "");
    ("height", VStr "");
    ("width", VStr "");
    ("contentType", VStr "");
    ("fileName", VStr "");
    ("fileSize", VStr "");
    ("content", VStr "");
    ("url", VStr "");
    ("previewable", VBool false) ].

(** [NodeType.computeAttrs]: every declared attribute, with its default
    where the given object has no value for it. *)
Definition computeAttrs (defaults : list (string * jsval))
    (given : gmap string jsval) : gmap string jsval :=
  list_to_map
    (map (fun kd : string * jsval =>
            (fst kd,
             match attr given (fst kd) with
             | VUndefined => snd kd
             | v => v
             end))
       defaults).

Definition figureType : node_type :=
  {| name := "attachment-figure"; isLeaf := false |}.
Definition galleryType : node_type :=
  {| name := "attachment-gallery"; isLeaf := false |}.
Definition paragraphType : node_type :=
  {| name := "paragraph"; isLeaf := false |}.

(** [schema.nodes.paragraph.create()] *)
Definition emptyParagraph : pmnode := PNode paragraphType ∅ [].

(** [schema.nodes["attachment-gallery"].create({}, nodes)] *)
Definition createGallery (nodes : list pmnode) : pmnode :=
  PNode galleryType ∅ nodes.

(** The caption of an attachment as the content of its figure:
    [attachment.caption ? [schema.text(attachment.caption)] : []].  The
    caption of an attachment is a string; any other value is taken as no
    caption. *)
Definition captionContent (attachment : gmap string jsval) : list pmnode :=
  match attr attachment "caption" with
  | VStr s => if String.eqb s "" then [] else [PText s]
  | _ => []
  end.

(** [schema.nodes["attachment-figure"].create(attachment, ...)] *)
Definition createFigure (attachment : gmap string jsval) : pmnode :=
  PNode figureType (computeAttrs attributeDefaults attachment)
    (captionContent attachment).

(* ===================================================================== *)
(** ** Markup *)
(* ===================================================================== *)

(** ToString, as applied by [+] with a string and by [setAttribute]. *)
Fixpoint js_to_string (v : jsval) : string :=
  match v with
  | VUndefined => "undefined"
  | VNull => "null"
  | VBool true => "true"
  | VBool false => "false"
  | VNum n => Z_to_string n
  | VStr s => s
  | VArr items =>
      join ","
        (map (fun x => match x with
                       | VUndefined | VNull => ""
                       | _ => js_to_string x
                       end) items)
  | VObj _ => "[object Object]"
  end.

(** An object literal: its properties in order. *)
Definition get (o : list (string * jsval)) (key : string) : jsval :=
  match find (fun kv => String.eqb (fst kv) key) o with
  | Some kv => snd kv
  | None => VUndefined
  end.

(** [o[key] = v]: in place when the key exists, at the end otherwise. *)
Fixpoint set (o : list (string * jsval)) (key : string) (v : jsval)
  : list (string * jsval) :=
  match o with
  | [] => [(key, v)]
  | (k, x) :: o' =>
      if String.eqb k key then (k, v) :: o' else (k, x) :: set o' key v
  end.

(** An element of [Array.prototype.join]. *)
Definition join_item (v : jsval) : string :=
  match v with
  | VUndefined | VNull => ""
  | _ => js_to_string v
  end.

(** One property merged into the attributes gathered so far, as
    [mergeAttributes] of @tiptap/core 2.0 does it: a class is appended
    after a space, a style after a semicolon, any other value replaces
    the one that is there.  (Later releases drop the class names that
    are already present.) *)
Definition mergeAttribute (merged : list (string * jsval)) (kv : string * jsval)
  : list (string * jsval) :=
  let '(key, value) := kv in
  let existing := get merged key in
  if negb (truthy existing) then set merged key value
  else if String.eqb key "class" then
    set merged key (VStr (join_item existing +:+ " " +:+ join_item value))
  else if String.eqb key "style" then
    set merged key (VStr (join_item existing +:+ "; " +:+ join_item value))
  else set merged key value.

(** [mergeAttributes(a, b)] *)
Definition mergeAttributes (a b : list (string * jsval)) : list (string * jsval) :=
  fold_left mergeAttribute b (fold_left mergeAttribute a []).

(** The output specification of a node: an element with its attributes
    and children, or the hole [0] that takes the content of the node. *)
Unset Elimination Schemes.
Inductive DOMOutputSpec : Type :=
| Hole
| Spec (tag : string) (attrs : list (string * jsval)) (children : list DOMOutputSpec).

Inductive DomNode : Type :=
| DomText (data : string)
| DomElement (tag : string) (attributes : list (string * string))
    (children : list DomNode).
Set Elimination Schemes.

(** The options of [addOptions]. *)
Definition defaultHTMLAttributes : list (string * jsval) :=
  [ ("class", VStr "attachment");
    ("data-trix-attributes",
     VStr (JSON_stringify (VObj [("presentation", VStr "gallery")]))) ].

(** The object [attachmentAttrs] of [renderHTML]. *)
Definition attachmentAttrs (a : gmap string jsval) : list (string * jsval) :=
  [ ("caption", attr a "caption");
    ("contentType", attr a "contentType");
    ("content", attr a "content");
    ("filename", attr a "fileName");
    ("filesize", attr a "fileSize");
    ("height", attr a "height");
    ("width", attr a "width");
    ("sgid", attr a "sgid");
    ("url", attr a "url");
    ("src", attr a "src") ].

(** The attributes [renderHTML] computes for the figure, before they
    are merged with the options. *)
Definition figureAttributes (HTMLAttributes : list (string * jsval))
    (a : gmap string jsval) : result (list (string * jsval)) :=
  let* preview := canPreviewJS (attr a "previewable") (attr a "contentType") in
  let* extension := toExtensionJS (attr a "fileName") in
  Ok [ ("class",
        VStr (js_to_string (get HTMLAttributes "class") +:+ " " +:+
              toTypeJS (attr a "content") preview +:+ " " +:+ extension));
       ("data-trix-content-type", attr a "contentType");
       ("data-trix-attachment", VStr (JSON_stringify (VObj (attachmentAttrs a))));
       ("data-trix-attributes",
        VStr (JSON_stringify
                (VObj [("caption", attr a "caption");
                       ("presentation", VStr "gallery")]))) ].

Definition figcaptionSpec : DOMOutputSpec :=
  Spec "figcaption"
    (mergeAttributes []
       [("class", VStr "attachment__caption attachment__caption--edited")])
    [Hole].

Definition imageSpec (a : gmap string jsval) : DOMOutputSpec :=
  Spec "img"
    (mergeAttributes []
       [ ("src", js_or (attr a "url") (attr a "src"));
         ("contenteditable", VBool false);
         ("width", attr a "width");
         ("height", attr a "height") ])
    [].

(** [renderHTML({ node })] *)
Definition renderHTML (HTMLAttributes : list (string * jsval)) (node : pmnode)
  : result DOMOutputSpec :=
  let a := node_attrs node in
  let* computed := figureAttributes HTMLAttributes a in
  let figure := mergeAttributes HTMLAttributes computed in
  if negb (truthy (attr a "content")) then
    Ok (Spec "figure" figure [imageSpec a; figcaptionSpec])
  else Ok (Spec "figure" figure [figcaptionSpec]).

(** The attributes an element gets from an output specification: a
    property that is [null] or [undefined] is skipped, any other value
    is set as a string. *)
Fixpoint renderAttributes (attrs : list (string * jsval)) : list (string * string) :=
  match attrs with
  | [] => []
  | (k, v) :: attrs' =>
      if nullish v then renderAttributes attrs'
      else (k, js_to_string v) :: renderAttributes attrs'
  end.

(** The element built from an output specification, with the rendered
    content of the node in place of the hole. *)
Fixpoint renderSpec (content : list DomNode) (spec : DOMOutputSpec) : list DomNode :=
  match spec with
  | Hole => content
  | Spec tag attrs children =>
      [DomElement tag (renderAttributes attrs)
         ((fix each (l : list DOMOutputSpec) : list DomNode :=
             match l with
             | [] => []
             | x :: l' => (renderSpec content x ++ each l')%list
             end) children)]
  end.

(** The content of a figure as markup.  Only text is modelled: how marks
    and other inline nodes are written is the business of their own
    node types. *)
Fixpoint renderInline (content : list pmnode) : list DomNode :=
  match content with
  | [] => []
  | PText s :: content' => DomText s :: renderInline content'
  | PNode _ _ _ :: content' => renderInline content'
  end.

(** [element.getAttribute(name)] *)
Definition getAttribute (el : DomNode) (name : string) : option string :=
  match el with
  | DomText _ => None
  | DomElement _ attributes _ =>
      match find (fun kv => String.eqb (fst kv) name) attributes with
      | Some kv => Some (snd kv)
      | None => None
      end
  end.

(** [element.querySelector(tag)]: the first descendant with that tag. *)
Fixpoint querySelectorIn (tag : string) (l : list DomNode) (fuel : nat) : option DomNode :=
  match fuel with
  | O => None
  | S fuel' =>
      match l with
      | [] => None
      | DomText _ :: l' => querySelectorIn tag l' fuel'
      | DomElement t attributes children :: l' =>
          if String.eqb t tag then Some (DomElement t attributes children)
          else querySelectorIn tag (children ++ l')%list fuel'
      end
  end.

Fixpoint domSize (n : DomNode) : nat :=
  match n with
  | DomText _ => 1
  | DomElement _ _ children =>
      S ((fix sum (l : list DomNode) : nat :=
            match l with
            | [] => O
            | x :: l' => (domSize x + sum l')%nat
            end) children)
  end.

Definition node_children (n : DomNode) : list DomNode :=
  match n with
  | DomText _ => []
  | DomElement _ _ children => children
  end.

Definition querySelector (el : DomNode) (tag : string) : option DomNode :=
  querySelectorIn tag (node_children el) (domSize el).

(** Escaping of text and of attribute values in serialized markup (the
    no-break space, which is not a single character here, is left
    as it is). *)
Fixpoint escapeText (s : string) : string :=
  match s with
  | EmptyString => ""
  | String c s' =>
      (if Ascii.eqb c "&" then "&amp;"
       else if Ascii.eqb c "<" then "&lt;"
       else if Ascii.eqb c ">" then "&gt;"
       else String c "") +:+ escapeText s'
  end.

Fixpoint escapeAttribute (s : string) : string :=
  match s with
  | EmptyString => ""
  | String c s' =>
      (if Ascii.eqb c "&" then "&amp;"
       else if Ascii.eqb c dquote then "&quot;"
       else String c "") +:+ escapeAttribute s'
  end.

Definition isVoid (tag : string) : bool :=
  existsb (String.eqb tag) ["br"; "hr"; "img"; "input"; "meta"; "link"].

(** [element.outerHTML] and, for a list of children, [innerHTML]. *)
Fixpoint outerHTML (n : DomNode) : string :=
  match n with
  | DomText data => escapeText data
  | DomElement tag attributes children =>
      "<" +:+ tag +:+
      fold_right
        (fun kv acc =>
           " " +:+ fst kv +:+ "=" +:+ String dquote (escapeAttribute (snd kv))
           +:+ String dquote acc)
        "" attributes +:+
      ">" +:+
      (if isVoid tag then ""
       else
         (fix inner (l : list DomNode) : string :=
            match l with
            | [] => ""
            | x :: l' => outerHTML x +:+ inner l'
            end) children +:+ "</" +:+ tag +:+ ">")
  end.

Fixpoint innerHTMLOf (l : list DomNode) : string :=
  match l with
  | [] => ""
  | x :: l' => outerHTML x +:+ innerHTMLOf l'
  end.

Definition innerHTML (el : DomNode) : string := innerHTMLOf (node_children el).

(** What a parse rule sees: the matched element and, when there is one,
    the closest [action-text-attachment] element around it. *)
Record ParseInput : Type :=
  { element : DomNode; wrapper : option DomNode }.

(** Modelled from the spec: [findAttribute] of
    src/exports/extensions/find-attribute is not part of the sources at
    hand.  The specification has a field resolved from the explicit
    attribute on the element first and, for markup this system wrote,
    from the JSON blob of the marker attribute [data-trix-attachment];
    by its error policy a blob that does not parse is swallowed. *)
Definition findAttribute (input : ParseInput) (name : string) : jsval :=
  match getAttribute (element input) name with
  | Some s => VStr s
  | None =>
      match getAttribute (element input) "data-trix-attachment" with
      | Some text =>
          match JSON_parse text with
          | Ok blob =>
              match get_prop blob name with
              | Ok v => v
              | Throw _ => VNull
              end
          | Throw _ => VNull
          end
      | None => VNull
      end
  end.

(** [element.getAttribute(name) || fallback] *)
Definition attributeOr (el : DomNode) (name fallback : string) : string :=
  match getAttribute el name with
  | Some s => if String.eqb s "" then fallback else s
  | None => fallback
  end.

(** The [parseHTML] rules of [addAttributes]. *)
Definition caption_parseHTML (input : ParseInput) : result jsval :=
  let fromCaption :=
    match querySelector (element input) "figcaption" with
    | Some figcaption => VStr (innerHTML figcaption)
    | None => VUndefined
    end in
  Ok (js_or fromCaption (findAttribute input "caption")).

Definition contentType_parseHTML (input : ParseInput) : result jsval :=
  let explicit := findAttribute input "content-type" in
  if truthy explicit then Ok explicit
  else
    let* blob := JSON_parse (attributeOr (element input) "data-trix-attachment" "") in
    let* fromBlob := get_prop blob "contentType" in
    Ok (js_or fromBlob (VStr "application/octet-stream")).

Definition content_parseHTML (input : ParseInput) : result jsval :=
  let fromWrapper :=
    match wrapper input with
    | Some w => VStr (innerHTML w)
    | None => VUndefined
    end in
  Ok (js_or (js_or (findAttribute input "content") fromWrapper) (VStr "")).

Definition previewable_parseHTML (input : ParseInput) : result jsval :=
  let* blob := JSON_parse (attributeOr (element input) "data-trix-attachment" "{}") in
  get_prop blob "previewable".

(** The attributes of the node type: name, default and parse rule, in
    the order of [addAttributes]. *)
Definition addAttributes
  : list (string * jsval * option (ParseInput -> result jsval)) :=
  [ ("attachmentId", VNull, None);
    ("caption", VStr "", Some caption_parseHTML);
    ("progress", VNum 100, None);
    ("sgid", VStr "", Some (fun input => Ok (findAttribute input "sgid")));
    ("src", VStr "", Some (fun input => Ok (findAttribute input "src")));
    ("height", VStr "", Some (fun input => Ok (findAttribute input "height")));
    ("width", VStr "", Some (fun input => Ok (findAttribute input "width")));
    ("contentType", VStr "", Some contentType_parseHTML);
    ("fileName", VStr "", Some (fun input => Ok (findAttribute input "filename")));
    ("fileSize", VStr "", Some (fun input => Ok (findAttribute input "filesize")));
    ("content", VStr "", Some content_parseHTML);
    ("url", VStr "", Some (fun input => Ok (findAttribute input "url")));
    ("previewable", VBool false, Some previewable_parseHTML) ].

(** The value of an attribute without a rule of its own: the attribute
    of that name on the element, read as a boolean or an integer when it
    spells one. *)
Definition fromString (s : string) : jsval :=
  if String.eqb s "true" then VBool true
  else if String.eqb s "false" then VBool false
  else
    let '(negative, digits) :=
      match s with
      | String c s' =>
          if Ascii.eqb c "-" then (true, s')
          else if Ascii.eqb c "+" then (false, s')
          else (false, s)
      | EmptyString => (false, s)
      end in
    match digits, take_digits digits with
    | String _ _, (_, EmptyString) =>
        match NilEmpty.uint_of_string digits with
        | Some d => VNum (if negative then - Z.of_uint d else Z.of_uint d)
        | None => VStr s
        end
    | _, _ => VStr s
    end.

Definition parseAttribute (input : ParseInput)
    (spec : string * jsval * option (ParseInput -> result jsval)) : result jsval :=
  match spec with
  | (_, _, Some rule) => rule input
  | (attribute, _, None) =>
      Ok match getAttribute (element input) attribute with
         | Some s => fromString s
         | None => VNull
         end
  end.

(** The attributes of the node a matched element is parsed into: the
    rules are run in order, a result that is [null] or [undefined] is
    dropped and the default of the attribute takes its place. *)
Fixpoint parseAttributes (input : ParseInput)
    (specs : list (string * jsval * option (ParseInput -> result jsval)))
  : result (gmap string jsval) :=
  match specs with
  | [] => Ok ∅
  | spec :: specs' =>
      let* v := parseAttribute input spec in
      let* rest := parseAttributes input specs' in
      Ok (<[fst (fst spec) := if nullish v then snd (fst spec) else v]> rest)
  end.

(** The values of the data model that markup can carry: strings,
    integers and booleans. *)
Definition persisted (v : jsval) : bool :=
  match v with
  | VStr _ | VNum _ | VBool _ => true
  | _ => false
  end.

(** Serializing a figure node and parsing the element back. *)
Definition serialize (node : pmnode) : result ParseInput :=
  let* spec := renderHTML defaultHTMLAttributes node in
  match renderSpec (renderInline (node_content node)) spec with
  | [el] => Ok {| element := el; wrapper := None |}
  | _ => Throw OtherError
  end.

Definition parse (input : ParseInput) : result (gmap string jsval) :=
  parseAttributes input addAttributes.

(* ===================================================================== *)
(** ** The command [setAttachment] *)
(* ===================================================================== *)

Record CommandOutcome : Type :=
  { returned : bool;
    transaction : Transaction;
    dispatched : option Transaction }.

Definition isGallery (n : pmnode) : bool :=
  String.eqb (type_name n) "attachment-gallery".

(** [currentSelection.node(1).type.name === "attachment-gallery"]: the
    access to [type] throws when there is no node at depth 1. *)
Definition isInGalleryCurrent (currentSelection : ResolvedPos) : result bool :=
  match rp_node currentSelection 1 with
  | Some n => Ok (isGallery n)
  | None => Throw TypeError
  end.

(** [nodeBefore.node(1)?.type.name === "attachment-gallery"] *)
Definition isInGalleryAfter (nodeBefore : ResolvedPos) : bool :=
  match rp_node nodeBefore 1 with
  | Some n => isGallery n
  | None => false
  end.

(** [Array.isArray(options) ? options : [].concat(options)] *)
Definition toAttachments (options : gmap string jsval + list (gmap string jsval))
  : list (gmap string jsval) :=
  match options with
  | inl attachment => [attachment]
  | inr attachments => attachments
  end.

Definition clampBefore (anchor : Z) : Z :=
  if anchor - 2 <? 0 then 0 else anchor - 2.

Definition setAttachment
    (options : gmap string jsval + list (gmap string jsval))
    (state : EditorState) (tr : Transaction) (dispatch : bool)
  : result CommandOutcome :=
  let* currentSelection := resolve (doc state) (anchor (selection state)) in
  let before := clampBefore (anchor (selection state)) in
  let* nodeBefore := resolve (doc state) before in
  let* inCurrent := isInGalleryCurrent currentSelection in
  let inAfter := isInGalleryAfter nodeBefore in
  let isInGallery := inCurrent || inAfter in
  let attachments := toAttachments options in
  let attachmentNodes := map createFigure attachments in
  let* tr' :=
    if isInGallery then
      let end_ := rp_end currentSelection in
      let backtrack := if inCurrent then 0 else 2 in
      tr_insert tr (end_ - backtrack) attachmentNodes
    else
      let gallery := createGallery attachmentNodes in
      let currSelection := selection state in
      let* tr1 :=
        tr_replaceWith tr (sel_from currSelection - 1) (sel_to currSelection)
          [emptyParagraph; gallery; emptyParagraph] in
      Ok (selectionToInsertionEnd tr1 (Z.of_nat (length (tr_steps tr1)) - 1) (-1))
  in
  Ok {| returned := true;
        transaction := tr';
        dispatched := if dispatch then Some tr' else None |}.

(** The transaction a command starts from. *)
Definition freshTransaction (state : EditorState) : Transaction :=
  {| tr_doc := doc state; tr_steps := []; tr_selection := None |}.

(* ===================================================================== *)
(** ** The node view *)
(* ===================================================================== *)

(** [doc.nodeAt(pos)]: the node that starts at [pos], [None] for [null].
    Each descent lowers the position. *)
Fixpoint nodeAt_loop (fuel : nat) (node : pmnode) (p : Z) : result (option pmnode) :=
  match fuel with
  | O => Throw RangeError
  | S fuel' =>
      let* io := findIndex (node_content node) p in
      let '(index, offset) := io in
      match nth_error (node_content node) index with
      | None => Ok None
      | Some child =>
          if (offset =? p) || isText child then Ok (Some child)
          else nodeAt_loop fuel' child (p - offset - 1)
      end
  end.

Definition nodeAt (d : pmnode) (p : Z) : result (option pmnode) :=
  nodeAt_loop (S (Z.to_nat p)) d p.

(** Replacing the [index]-th child. *)
Definition withChild (node : pmnode) (index : nat) (child : pmnode) : pmnode :=
  match node with
  | PText s => PText s
  | PNode t a c => PNode t a (<[index := child]> c)
  end.

(** [node.type.create(attrs, null, node.marks)] around the same content.
    The attributes handed over are those of a node with two of them
    replaced, so that none is left to be filled in with its default. *)
Definition withAttrs (node : pmnode) (a : gmap string jsval) : pmnode :=
  match node with
  | PText s => PText s
  | PNode t _ c => PNode t a c
  end.

(** [tr.setNodeMarkup(pos, undefined, attrs)] as the document it leads
    to: the node at [pos] keeps its type and content and takes the new
    attributes; without a node there, or with a text node, which no node
    type can create, the call throws. *)
Fixpoint setNodeMarkup_loop (fuel : nat) (node : pmnode) (p : Z)
    (a : gmap string jsval) : result pmnode :=
  match fuel with
  | O => Throw RangeError
  | S fuel' =>
      let* io := findIndex (node_content node) p in
      let '(index, offset) := io in
      match nth_error (node_content node) index with
      | None => Throw RangeError
      | Some child =>
          if (offset =? p) || isText child then
            if isText child then Throw OtherError
            else Ok (withChild node index (withAttrs child a))
          else
            let* child' := setNodeMarkup_loop fuel' child (p - offset - 1) a in
            Ok (withChild node index child')
      end
  end.

Definition setNodeMarkup (d : pmnode) (p : Z) (a : gmap string jsval)
  : result pmnode :=
  setNodeMarkup_loop (S (Z.to_nat p)) d p a.

(** What a node view asks of the editor. *)
Inductive ViewRequest : Type :=
| SetTextSelection (p : Z)
| SetNodeMarkup (p : Z) (a : gmap string jsval).

(** What happens to a node view. *)
Inductive ViewEvent : Type :=
| Click (insideCaption : bool)
| ImageLoad (naturalWidth naturalHeight : Z).

(** The parts of a node view that bear on its requests: the attributes
    captured when it was built, the position [getPos()] gives ([None]
    when [getPos] is not a function) and whether [img.onload] was set. *)
Record NodeView : Type :=
  { nv_attrs : gmap string jsval;
    nv_getPos : option Z;
    nv_onload : bool }.

(** [addNodeView]: the class of the figure is computed first, from
    [canPreview] and [toExtension]; the load handler is set when the node
    can be previewed and lacks a width or a height.  The elements the
    view builds are left out. *)
Definition addNodeView (node : pmnode) (getPos : option Z) : result NodeView :=
  let a := node_attrs node in
  let* preview := canPreviewJS (attr a "previewable") (attr a "contentType") in
  let* extension := toExtensionJS (attr a "fileName") in
  Ok {| nv_attrs := a;
        nv_getPos := getPos;
        nv_onload :=
          preview && (negb (truthy (attr a "width")) || negb (truthy (attr a "height"))) |}.

(** The listeners of the view: a click outside of the caption moves the
    text selection just inside the node; the load of the image writes
    the natural dimensions over the captured attributes,
    [{...node.attrs, height, width}]. *)
Definition handleEvent (v : NodeView) (e : ViewEvent) : option ViewRequest :=
  match e with
  | Click insideCaption =>
      if insideCaption then None
      else
        match nv_getPos v with
        | Some p => Some (SetTextSelection (p + 1))
        | None => None
        end
  | ImageLoad naturalWidth naturalHeight =>
      if nv_onload v then
        match nv_getPos v with
        | Some p =>
            Some (SetNodeMarkup p
                    (<["width" := VNum naturalWidth]>
                       (<["height" := VNum naturalHeight]> (nv_attrs v))))
        | None => None
        end
      else None
  end.

(** The document after the editor has carried out a request. *)
Definition applyRequest (d : pmnode) (r : ViewRequest) : result pmnode :=
  match r with
  | SetTextSelection _ => Ok d
  | SetNodeMarkup p a => setNodeMarkup d p a
  end.



(* ===================================================================== *)
(** ** The parse rules of the node type *)
(* ===================================================================== *)

(** A tag selector of [parseHTML()], taken apart: the name of the
    element and, where the selector has one, the attribute that has to
    be present and the class name that has to be among the classes. *)
Record ParseRule : Type :=
  { rule_tag : string;
    rule_attribute : option string;
    rule_class : option string;
    contentElement : option string }.

(** [parseHTML()]: ["figure[data-trix-attachment]"] first, then
    ["figure.attachment"] with the caption element as content element. *)
Definition parseHTML : list ParseRule :=
  [ {| rule_tag := "figure";
       rule_attribute := Some "data-trix-attachment";
       rule_class := None;
       contentElement := None |};
    {| rule_tag := "figure";
       rule_attribute := None;
       rule_class := Some "attachment";
       contentElement := Some "figcaption" |} ].

(** White space between class names: space, tab, line feed, form feed
    and carriage return. *)
Definition is_space (c : ascii) : bool :=
  let n := nat_of_ascii c in
  ((n =? 32) || (n =? 9) || (n =? 10) || (n =? 12) || (n =? 13))%nat.

(** [element.classList]: the runs of other characters in the [class]
    attribute; [current] is the run being read. *)
Fixpoint classNames (s current : string) : list string :=
  match s with
  | EmptyString => if String.eqb current "" then [] else [current]
  | String c s' =>
      if is_space c then
        if String.eqb current "" then classNames s' ""
        else current :: classNames s' ""
      else classNames s' (current +:+ String c "")
  end.

Definition classList (el : DomNode) : list string :=
  match getAttribute el "class" with
  | Some s => classNames s ""
  | None => []
  end.

(** [element.matches(selector)] for the selector of a rule. *)
Definition selects (rule : ParseRule) (el : DomNode) : bool :=
  match el with
  | DomText _ => false
  | DomElement tag _ _ =>
      String.eqb tag (rule_tag rule) &&
      match rule_attribute rule with
      | Some attribute =>
          match getAttribute el attribute with
          | Some _ => true
          | None => false
          end
      | None => true
      end &&
      match rule_class rule with
      | Some class => existsb (String.eqb class) (classList el)
      | None => true
      end
  end.

(** The rule an element is parsed by: the rules of a node type are
    tried in the order in which [parseHTML()] lists them. *)
Definition matchingRule (el : DomNode) : option ParseRule :=
  find (fun rule => selects rule el) parseHTML.

(* ===================================================================== *)
(** ** The elements of the node view *)
(* ===================================================================== *)

(** The children of the figure element of a view: the attachment
    editor, the image, the caption, and the nodes that the embedded
    content gives when it is assigned to [innerHTML]. *)
Inductive ViewChild : Type :=
| AttachmentEditorElement
| ImageElement
| CaptionElement
| ContentMarkup (html : string).

(** The end of [addNodeView]: once the class of the figure has been
    computed, the content takes the place of the image when there is
    some and the node cannot be previewed. *)
Definition viewChildren (node : pmnode) : result (list ViewChild) :=
  let a := node_attrs node in
  let* preview := canPreviewJS (attr a "previewable") (attr a "contentType") in
  let* extension := toExtensionJS (attr a "fileName") in
  if truthy (attr a "content") && negb preview then
    Ok [AttachmentEditorElement;
        ContentMarkup (js_to_string (attr a "content"));
        CaptionElement]
  else Ok [AttachmentEditorElement; ImageElement; CaptionElement].

(* ===================================================================== *)
(** ** Predicates on values *)
(* ===================================================================== *)

Definition isString (v : jsval) : bool :=
  match v with
  | VStr _ => true
  | _ => false
  end.

Definition isUndefined (v : jsval) : bool :=
  match v with
  | VUndefined => true
  | _ => false
  end.

(** The properties of an object that [JSON.stringify] writes. *)
Definition written (fields : list (string * jsval)) : list (string * jsval) :=
  List.filter (fun kv => negb (isUndefined (snd kv))) fields.

(** Text without white space: a single class name. *)
Fixpoint spaceless (s : string) : bool :=
  match s with
  | EmptyString => true
  | String c s' => negb (is_space c) && spaceless s'
  end.

(* ===================================================================== *)
(** ** Sample documents *)
(* ===================================================================== *)

Definition docType : node_type := {| name := "doc"; isLeaf := false |}.
Definition ruleType : node_type := {| name := "horizontalRule"; isLeaf := true |}.

Definition paragraph (text : string) : pmnode :=
  PNode paragraphType ∅ (if String.eqb text "" then [] else [PText text]).

Definition sampleAttachment : gmap string jsval :=
  <["fileName" := VStr "a.png"]> (<["contentType" := VStr "image/png"]> ∅).

Definition sampleFigure : pmnode := createFigure sampleAttachment.

(** A figure with embedded content, an identifier and the previewable
    flag set. *)
Definition sampleContentFigure : pmnode :=
  createFigure
    (<["content" := VStr "<p>x</p>"]>
       (<["previewable" := VBool true]>
          (<["attachmentId" := VStr "abc"]> sampleAttachment))).

(** A figure element without any metadata, and one whose metadata is
    not JSON. *)
Definition bareFigure : ParseInput :=
  {| element := DomElement "figure" [("class", "attachment")]
                  [DomElement "figcaption" [] [DomText "a caption"]];
     wrapper := None |}.

Definition brokenFigure : ParseInput :=
  {| element := DomElement "figure"
                  [("class", "attachment"); ("data-trix-attachment", "{oops")] [];
     wrapper := None |}.

Definition videoFigure : ParseInput :=
  {| element :=
       DomElement "figure"
         [("data-trix-attachment",
           JSON_stringify (VObj [("contentType", VStr "video/mp4")]))] [];
     wrapper := None |}.

(** A paragraph with the whole document selected: both ends of the
    selection lie outside the paragraph. *)
Definition stateAllSelected : EditorState :=
  {| doc := PNode docType ∅ [paragraph "hi"];
     selection := {| anchor := 0; head := 4 |} |}.

(** A gallery followed by a horizontal rule, the rule selected. *)
Definition stateRuleAfterGallery : EditorState :=
  {| doc := PNode docType ∅ [createGallery [sampleFigure]; PNode ruleType ∅ []];
     selection := {| anchor := 4; head := 5 |} |}.

(** A cursor in the middle of a paragraph. *)
Definition stateInParagraph : EditorState :=
  {| doc := PNode docType ∅ [paragraph "ab"];
     selection := {| anchor := 2; head := 2 |} |}.

(** A cursor in the empty paragraph that follows a gallery. *)
Definition stateAfterGallery : EditorState :=
  {| doc := PNode docType ∅ [createGallery [sampleFigure]; paragraph ""];
     selection := {| anchor := 5; head := 5 |} |}.

(** The figure of a gallery selected as a node. *)
Definition stateFigureSelected : EditorState :=
  {| doc := PNode docType ∅ [createGallery [sampleFigure]];
     selection := {| anchor := 1; head := 3 |} |}.

(** A figure that cannot be previewed. *)
Definition pdfFigure : pmnode :=
  createFigure
    (<["fileName" := VStr "a.pdf"]> (<["contentType" := VStr "application/pdf"]> ∅)).




(* ===================================================================== *)
(** * Properties *)
(* ===================================================================== *)

Example canPreview_png : canPreview false (Some "image/png") = true.
Proof. reflexivity. Qed.
Example canPreview_svg : canPreview false (Some "image/svg+xml") = false.
Proof. reflexivity. Qed.
Example canPreview_pngx : canPreview false (Some "image/pngx") = true.
Proof. reflexivity. Qed.
Example toExtension_abJPG : toExtension (Some "a.b.JPG") = "attachment--jpg".
Proof. reflexivity. Qed.
Example toExtension_readme : toExtension (Some "README") = "attachment--undefined".
Proof. reflexivity. Qed.

(** ** The previewable pattern *)

(** Case analysis on the subject of a match, one character at a time. *)
Ltac crack H :=
  repeat
    (match type of H with
     | context [match ?s with EmptyString => _ | String _ _ => _ end] =>
         is_var s; destruct s as [|?c ?s]; cbn -[Ascii.eqb] in H
     | context [Ascii.eqb ?a ?b] =>
         let E := fresh "E" in
         destruct (Ascii.eqb_spec a b) as [E|E];
         [ first [discriminate E | subst | idtac] | try congruence ];
         cbn -[Ascii.eqb] in H
     end; try congruence).

Lemma search_isPreviewable_later (s : string) :
  search isPreviewable false s = None.
Proof. induction s as [|c s IH]; simpl; auto. Qed.

Lemma str_match_isPreviewable (s : string) :
  str_match s isPreviewable =
  rmatch isPreviewable true s [] (fun _ _ caps => Some caps).
Proof.
  unfold str_match.
  destruct s as [|c s]; cbn [search];
    destruct (rmatch isPreviewable true _ [] _); auto.
  apply search_isPreviewable_later.
Qed.

Lemma isPreviewable_match_inv (s : string) :
  str_match s isPreviewable <> None ->
  s = "image" \/
  exists rest, s = "image/gif" +:+ rest \/ s = "image/png" +:+ rest \/
               s = "image/jpg" +:+ rest \/ s = "image/jpeg" +:+ rest.
Proof.
  rewrite str_match_isPreviewable. unfold isPreviewable. intros H.
  cbn -[Ascii.eqb] in H. crack H.
  all: first [left; reflexivity | right; eexists; cbn; eauto 10].
Qed.

Lemma isPreviewable_match_prefix (rest : string) :
  str_match ("image/gif" +:+ rest) isPreviewable <> None /\
  str_match ("image/png" +:+ rest) isPreviewable <> None /\
  str_match ("image/jpg" +:+ rest) isPreviewable <> None /\
  str_match ("image/jpeg" +:+ rest) isPreviewable <> None.
Proof. rewrite !str_match_isPreviewable. cbn. repeat split; discriminate. Qed.

(** C5, as the specification words it: the pattern is closed by [$]
    after the subtype. The counterexample below shows that this reading
    differs from the code at ["image/pngx"]. *)
Lemma canPreview_spec_reading_differs :
  canPreview false (Some "image/pngx") = true /\
  spec_canPreview false (Some "image/pngx") = false.
Proof. split; reflexivity. Qed.

(** C5 (amended): [canPreview] is true exactly when the flag is true, or
    the content type is ["image"], or the content type starts with
    ["image/gif"], ["image/png"], ["image/jpg"] or ["image/jpeg"]; it is
    false on ["image/svg+xml"] and on the empty string and true on
    ["image/png"]. *)
Theorem canPreview_iff :
  (forall (previewable : bool) (contentType : option string),
      canPreview previewable contentType = true <->
      previewable = true \/
      contentType = Some "image" \/
      exists rest,
        contentType = Some ("image/gif" +:+ rest) \/
        contentType = Some ("image/png" +:+ rest) \/
        contentType = Some ("image/jpg" +:+ rest) \/
        contentType = Some ("image/jpeg" +:+ rest)) /\
  canPreview false (Some "image/svg+xml") = false /\
  canPreview false (Some "image/png") = true /\
  canPreview false (Some "") = false.
Proof.
  split; [|repeat split].
  intros p ct. unfold canPreview. split.
  - destruct p; [auto|]. cbn [orb].
    destruct ct as [s|]; [|discriminate].
    destruct (str_match s isPreviewable) eqn:M; [|discriminate].
    intros _. right.
    destruct (isPreviewable_match_inv s) as [-> | [rest H]]; [congruence | auto |].
    right. exists rest. intuition congruence.
  - intros [-> | [-> | [rest H]]]; [reflexivity | apply orb_true_r |].
    destruct (isPreviewable_match_prefix rest) as (G & P & J & JE).
    destruct p; [reflexivity|]. cbn [orb].
    destruct H as [-> | [-> | [-> | ->]]];
      match goal with
      | |- context [str_match ?s ?r] => destruct (str_match s r)
      end; congruence.
Qed.

(** ** The extension pattern *)

Lemma orelse_None_r {A : Type} (x : option A) : orelse x None = x.
Proof. destruct x; reflexivity. Qed.

Lemma many_word_to_end (s : string) (k : string -> option (list string)) :
  many_word s (fun rest => match rest with
                           | EmptyString => k rest
                           | String _ _ => None
                           end)
  = if all_word s then k "" else None.
Proof.
  induction s as [|c s IH]; cbn [many_word all_word]; [reflexivity|].
  destruct (is_word c); cbn [andb]; [|reflexivity].
  rewrite IH. apply orelse_None_r.
Qed.

Lemma substring_all (s : string) : substring 0 (String.length s) s = s.
Proof. induction s as [|c s IH]; cbn; [reflexivity|]. now rewrite IH. Qed.

Lemma consumed_all (s : string) : consumed s "" = s.
Proof.
  unfold consumed. cbn [String.length]. rewrite Nat.sub_0_r.
  apply substring_all.
Qed.

(** One attempt of [/\.(\w+)$/] at a given position. *)
Lemma rmatch_extensionPattern (b : bool) (s : string) :
  rmatch extensionPattern b s [] (fun _ _ caps => Some caps) =
  match s with
  | String c ext =>
      if Ascii.eqb "." c && negb (String.eqb ext "") && all_word ext
      then Some [ext] else None
  | EmptyString => None
  end.
Proof.
  destruct s as [|c ext]; [reflexivity|].
  cbn -[Ascii.eqb]. destruct (Ascii.eqb "." c); cbn [andb]; [|reflexivity].
  destruct ext as [|c' t]; [reflexivity|]. cbn [String.eqb negb andb all_word].
  replace (String.eqb (String c' t) "") with false by reflexivity.
  cbn [negb andb].
  destruct (is_word c'); cbn [andb]; [|reflexivity].
  rewrite (many_word_to_end t (fun rest => Some [consumed (String c' t) rest])).
  now rewrite consumed_all.
Qed.

Lemma append_nil (t : string) : "" +:+ t = t.
Proof. reflexivity. Qed.

Lemma append_cons (c : ascii) (s t : string) :
  String c s +:+ t = String c (s +:+ t).
Proof. reflexivity. Qed.

Lemma all_word_dotted (base ext : string) :
  all_word (base +:+ String "." ext) = false.
Proof.
  induction base as [|c base IH]; [reflexivity|].
  rewrite append_cons. cbn [all_word]. rewrite IH. apply andb_false_r.
Qed.

Lemma search_extension (b : bool) (base ext : string) :
  ext <> "" -> all_word ext = true ->
  search extensionPattern b (base +:+ String "." ext) = Some [ext].
Proof.
  intros Hne Hw. revert b.
  induction base as [|c base IH]; intros b.
  - rewrite append_nil. unfold search.
    rewrite rmatch_extensionPattern.
    destruct ext as [|c' t]; [congruence|].
    replace (String.eqb (String c' t) "") with false by reflexivity.
    rewrite Hw. reflexivity.
  - rewrite append_cons. cbn [search]. rewrite rmatch_extensionPattern.
    rewrite all_word_dotted, andb_false_r. apply IH.
Qed.

Lemma search_without_dot (b : bool) (s : string) :
  has_dot s = false -> search extensionPattern b s = None.
Proof.
  revert b. induction s as [|c s IH]; intros b H.
  - reflexivity.
  - cbn [has_dot] in H. apply orb_false_iff in H as [Hc Hs].
    cbn [search]. rewrite rmatch_extensionPattern, Hc. cbn [andb].
    now apply IH.
Qed.

(** With an extension, the class is the prefix and the extension in
    lower case. *)
Lemma toExtension_with_extension (base ext : string) :
  ext <> "" -> all_word ext = true ->
  toExtension (Some (base +:+ String "." ext)) =
  "attachment--" +:+ toLowerCase ext.
Proof.
  intros Hne Hw. unfold toExtension, matchedExtension, str_match.
  rewrite (search_extension true base ext Hne Hw).
  destruct base; reflexivity.
Qed.

(** Without a dot there is no match, and the optional chain leaves
    [undefined] to be concatenated. *)
Lemma toExtension_without_dot (fileName : string) :
  fileName <> "" -> has_dot fileName = false ->
  toExtension (Some fileName) = "attachment--undefined".
Proof.
  intros Hne Hd. unfold toExtension, matchedExtension, str_match.
  rewrite (search_without_dot true fileName Hd).
  destruct fileName; [congruence|reflexivity].
Qed.

(** C6: [toExtension] on the three inputs of the specification's test:
    ["a.b.JPG"] gives ["attachment--jpg"], an absent name gives the empty
    string, and a name without extension gives ["attachment--undefined"],
    not an empty suffix. *)
Theorem toExtension_cases :
  toExtension (Some "a.b.JPG") = "attachment--jpg" /\
  toExtension None = "" /\
  toExtension (Some "") = "" /\
  toExtension (Some "README") = "attachment--undefined".
Proof. repeat split. Qed.

(** ** Resolving positions *)

Lemma nodeSize_PNode (t : node_type) (a : gmap string jsval) (c : list pmnode) :
  nodeSize (PNode t a c) = if isLeaf t then 1 else 2 + fragment_size c.
Proof. reflexivity. Qed.

(** Induction on nodes, with the property available for the children. *)
Lemma pmnode_ind (P : pmnode -> Prop) :
  (forall s, P (PText s)) ->
  (forall t a c, Forall P c -> P (PNode t a c)) ->
  forall n, P n.
Proof.
  intros Htext Hnode. fix IH 1. intros [s | t a c]; [apply Htext|].
  apply Hnode. induction c as [|x c IHc]; constructor; [apply IH | exact IHc].
Qed.

Lemma fragment_size_nonneg (l : list pmnode) :
  Forall (fun n => 0 <= nodeSize n) l -> 0 <= fragment_size l.
Proof.
  induction 1 as [|x l Hx _ IH]; cbn [fragment_size]; lia.
Qed.

Lemma nodeSize_nonneg (n : pmnode) : 0 <= nodeSize n.
Proof.
  induction n as [s | t a c IH] using pmnode_ind.
  - cbn. lia.
  - rewrite nodeSize_PNode. apply fragment_size_nonneg in IH.
    destruct (isLeaf t); lia.
Qed.

Lemma fragment_size_nonneg_all (l : list pmnode) : 0 <= fragment_size l.
Proof.
  apply fragment_size_nonneg, Forall_forall. intros n _. apply nodeSize_nonneg.
Qed.

(** Inside the range, the loop of [findIndex] either lands on a child
    boundary or names the child that strictly contains the position. *)
Lemma findIndex_loop_spec (l : list pmnode) (i : nat) (curPos p : Z) :
  curPos < p <= curPos + fragment_size l -> l <> [] ->
  let '(index, offset) := findIndex_loop l i curPos p in
  curPos <= offset /\
  (offset = p \/
   exists child, nth_error l (index - i) = Some child /\ (i <= index)%nat /\
                 offset < p < offset + nodeSize child /\
                 offset + nodeSize child <= curPos + fragment_size l).
Proof.
  revert i curPos. induction l as [|cur l IH]; intros i curPos Hp Hne.
  - congruence.
  - cbn [findIndex_loop fragment_size] in *.
    destruct (curPos + nodeSize cur >=? p) eqn:Hge.
    + pose proof (nodeSize_nonneg cur) as Hcur.
      destruct (curPos + nodeSize cur =? p) eqn:Heq.
      * split; [lia|]. left. lia.
      * split; [lia|]. right. exists cur. rewrite Nat.sub_diag. cbn [nth_error].
        pose proof (fragment_size_nonneg_all l).
        split; [reflexivity|]. split; [lia|]. split; lia.
    + pose proof (nodeSize_nonneg cur) as Hcur.
      assert (Hl : l <> []).
      { intros ->. cbn [fragment_size] in Hp. lia. }
      specialize (IH (S i) (curPos + nodeSize cur)).
      destruct (findIndex_loop l (S i) (curPos + nodeSize cur) p) as [index offset].
      destruct IH as [Hlo [H | (child & Hc & Hi & Hb & Hfit)]];
        [lia | exact Hl | split; [lia | now left] |].
      split; [lia|].
      right. exists child. split; [|split; [lia|split; [exact Hb|lia]]].
      replace (index - i)%nat with (S (index - S i)) by lia. exact Hc.
Qed.

Lemma findIndex_spec (l : list pmnode) (p : Z) :
  0 <= p <= fragment_size l ->
  exists index offset,
    findIndex l p = Ok (index, offset) /\ 0 <= offset /\
    (offset = p \/
     exists child, nth_error l index = Some child /\
                   offset < p < offset + nodeSize child /\
                   offset + nodeSize child <= fragment_size l).
Proof.
  intros Hp. unfold findIndex.
  destruct (p =? 0) eqn:H0;
    [exists O, p; split; [reflexivity|split; [lia|now left]]|].
  destruct (p =? fragment_size l) eqn:Hs;
    [exists (length l), p; split; [reflexivity|split; [lia|now left]]|].
  replace ((p >? fragment_size l) || (p <? 0)) with false by lia.
  assert (Hne : l <> []) by (intros ->; cbn [fragment_size] in *; lia).
  pose proof (findIndex_loop_spec l 0 0 p ltac:(lia) Hne) as H.
  destruct (findIndex_loop l 0 0 p) as [index offset].
  exists index, offset. split; [reflexivity|].
  destruct H as [Hlo [H | (child & Hc & _ & Hb & Hfit)]]; (split; [lia|]);
    [now left|].
  right. exists child. rewrite Nat.sub_0_r in Hc. repeat split; auto; lia.
Qed.

Lemma resolve_loop_total (fuel : nat) :
  forall (node : pmnode) (start po : Z) (path : list (pmnode * nat * Z)),
    0 <= po <= content_size node -> (Z.to_nat po < fuel)%nat ->
    exists r, resolve_loop fuel node start po path = Ok r.
Proof.
  induction fuel as [|fuel IH]; intros node start po path Hpo Hfuel; [lia|].
  cbn [resolve_loop].
  destruct (findIndex_spec (node_content node) po Hpo)
    as (index & offset & -> & Hoff & H).
  cbn [bind].
  destruct (po - offset =? 0) eqn:Hrem; [eauto|].
  destruct H as [H | (child & -> & Hb & _)]; [lia|].
  destruct child as [txt | t a c]; cbn [isText]; [eauto|].
  apply IH; [|lia].
  rewrite nodeSize_PNode in Hb. unfold content_size. cbn [node_content].
  destruct (isLeaf t); lia.
Qed.

(** Every position of a document resolves. *)
Lemma resolve_total (d : pmnode) (p : Z) :
  0 <= p <= content_size d -> exists rp, resolve d p = Ok rp.
Proof.
  intros Hp. unfold resolve.
  replace ((0 <=? p) && (p <=? content_size d)) with true by lia.
  destruct (resolve_loop_total (S (Z.to_nat p)) d 0 p [] Hp) as [r ->]; [lia|].
  cbn [bind]. eauto.
Qed.

(** The end of the block of a resolved position lies between the
    position and the end of the document, and a position inside a block
    is not the start of the document. *)
Lemma resolve_loop_end (fuel : nat) :
  forall (node : pmnode) (start po : Z) (pth pth' : list (pmnode * nat * Z))
         (po' : Z),
    start = path_start pth (length pth) ->
    0 <= po <= content_size node ->
    resolve_loop fuel node start po pth = Ok (pth', po') ->
    exists n,
      path_node pth' (length pth' - 1) = Some n /\
      start + po <= path_start pth' (length pth' - 1) + content_size n
                 <= start + content_size node /\
      (length pth < length pth')%nat /\
      ((length pth + 2 <= length pth')%nat -> 1 <= po).
Proof.
  induction fuel as [|fuel IH]; intros node start po pth pth' po' Hstart Hpo H;
    [discriminate|].
  cbn [resolve_loop] in H.
  destruct (findIndex_spec (node_content node) po Hpo)
    as (index & offset & Hfi & Hoff & Hcase).
  rewrite Hfi in H. cbn [bind] in H.
  assert (Hbase : forall e,
             exists n,
               path_node (pth ++ [(node, index, e)]) (length (pth ++ [(node, index, e)]) - 1)
               = Some n /\
               start + po <=
               path_start (pth ++ [(node, index, e)])
                 (length (pth ++ [(node, index, e)]) - 1) + content_size n
               <= start + content_size node /\
               (length pth < length (pth ++ [(node, index, e)]))%nat /\
               ((length pth + 2 <= length (pth ++ [(node, index, e)]))%nat -> 1 <= po)).
  { intros e. rewrite length_app. cbn [length].
    replace (length pth + 1 - 1)%nat with (length pth) by lia.
    exists node. unfold path_node.
    rewrite nth_error_app2, Nat.sub_diag by lia. cbn [nth_error].
    split; [reflexivity|]. split; [|split; lia].
    replace (path_start (pth ++ [(node, index, e)]) (length pth))
      with (path_start pth (length pth)); [lia|].
    unfold path_start. destruct (length pth) as [|d] eqn:E; [reflexivity|].
    rewrite nth_error_app1 by lia. reflexivity. }
  destruct (po - offset =? 0) eqn:Hrem.
  { inversion H; subst. apply Hbase. }
  destruct Hcase as [Hcase | (child & Hc & Hb & Hfit)]; [lia|].
  rewrite Hc in H. destruct child as [txt | t a c]; cbn [isText] in H.
  { inversion H; subst. apply Hbase. }
  rewrite nodeSize_PNode in Hb, Hfit.
  apply IH in H.
  - destruct H as (n & Hn & Hbounds & Hlen & _).
    rewrite length_app in Hlen. cbn [length] in Hlen.
    unfold content_size in *. cbn [node_content] in *.
    exists n. split; [exact Hn|]. split; [|split; lia].
    destruct (isLeaf t); lia.
  - rewrite length_app. cbn [length].
    replace (length pth + 1)%nat with (S (length pth)) by lia.
    cbn [path_start]. rewrite nth_error_app2, Nat.sub_diag by lia.
    reflexivity.
  - unfold content_size. cbn [node_content]. destruct (isLeaf t); lia.
Qed.

Lemma resolve_end_bounds (d : pmnode) (p : Z) (rp : ResolvedPos) :
  resolve d p = Ok rp ->
  pos rp = p /\
  0 <= p <= rp_end rp /\ rp_end rp <= content_size d /\
  (rp_node rp 1 <> None -> 1 <= p).
Proof.
  unfold resolve. destruct ((0 <=? p) && (p <=? content_size d)) eqn:Hr;
    [|discriminate].
  destruct (resolve_loop (S (Z.to_nat p)) d 0 p []) as [[pth po']|] eqn:Hloop;
    cbn [bind]; [|discriminate].
  intros H. inversion H; subst rp; clear H. cbn [pos].
  assert (Hp : 0 <= p <= content_size d).
  { apply andb_true_iff in Hr as [H1 H2]. lia. }
  destruct (resolve_loop_end _ d 0 p [] pth po' eq_refl Hp Hloop)
    as (n & Hn & Hbounds & Hlen & Hdeep).
  split; [reflexivity|].
  assert (Hend : p <= rp_end {| pos := p; path := pth; parentOffset := po' |}
                   <= content_size d).
  { unfold rp_end, rp_node, rp_start, depth. cbn [path fst]. rewrite Hn. lia. }
  split; [lia|]. split; [lia|].
  - unfold rp_node, path_node. cbn [path fst]. intros Hnode. apply Hdeep.
    cbn [length]. destruct pth as [|e1 [|e2 pth]]; cbn in *; try lia; congruence.
Qed.

(** ** The insertion command *)

Example resolve_figure_selected :
  exists rp, resolve (doc stateFigureSelected) 1 = Ok rp /\
             depth rp = 1%nat /\ isInGalleryCurrent rp = Ok true /\ rp_end rp = 3.
Proof. eexists. vm_compute. repeat split. Qed.

Example resolve_after_gallery :
  exists cur bef,
    resolve (doc stateAfterGallery) 5 = Ok cur /\
    resolve (doc stateAfterGallery) (clampBefore 5) = Ok bef /\
    isInGalleryCurrent cur = Ok false /\ isInGalleryAfter bef = true /\
    rp_end cur = 5.
Proof. do 2 eexists. vm_compute. repeat split. Qed.

(** The command completes only by its [return true]. *)
Lemma setAttachment_returns_true options state tr dispatch out :
  setAttachment options state tr dispatch = Ok out -> returned out = true.
Proof.
  unfold setAttachment. intros H.
  repeat match type of H with
         | bind ?m _ = Ok _ => destruct m; cbn [bind] in H; [|discriminate]
         end.
  now inversion H.
Qed.

(** When the anchor resolves outside of every block, reading the type of
    the node at depth 1 throws and the command does not complete. *)
Lemma setAttachment_at_top_level options state tr dispatch cur :
  resolve (doc state) (anchor (selection state)) = Ok cur ->
  rp_node cur 1 = None ->
  setAttachment options state tr dispatch = Throw TypeError.
Proof.
  intros Hcur Hnode. pose proof (resolve_total (doc state)) as Htot.
  unfold setAttachment. rewrite Hcur. cbn [bind].
  unfold isInGalleryCurrent. rewrite Hnode.
  destruct (resolve (doc state) (clampBefore (anchor (selection state)))) eqn:Hb;
    cbn [bind]; [reflexivity|].
  exfalso.
  assert (Hr : 0 <= anchor (selection state) <= content_size (doc state)).
  { unfold resolve in Hcur.
    destruct ((0 <=? anchor (selection state)) &&
              (anchor (selection state) <=? content_size (doc state))) eqn:E;
      [lia|discriminate]. }
  destruct (Htot (clampBefore (anchor (selection state)))) as [rp Hrp];
    [unfold clampBefore; destruct (anchor (selection state) - 2 <? 0) eqn:E; lia|].
  congruence.
Qed.

(** Next to a gallery, the figures are inserted at the end of the block
    of the cursor, two positions earlier when only the position before
    the cursor is inside a gallery. *)
Lemma setAttachment_in_gallery options state tr dispatch cur bef inCurrent :
  resolve (doc state) (anchor (selection state)) = Ok cur ->
  resolve (doc state) (clampBefore (anchor (selection state))) = Ok bef ->
  isInGalleryCurrent cur = Ok inCurrent ->
  inCurrent || isInGalleryAfter bef = true ->
  setAttachment options state tr dispatch =
  bind (tr_insert tr (rp_end cur - (if inCurrent then 0 else 2))
          (map createFigure (toAttachments options)))
    (fun tr' => Ok {| returned := true; transaction := tr';
                      dispatched := if dispatch then Some tr' else None |}).
Proof.
  intros Hcur Hbef Hc Hg. unfold setAttachment.
  rewrite Hcur, Hbef. cbn [bind]. rewrite Hc. cbn [bind]. rewrite Hg.
  reflexivity.
Qed.

Lemma nodeSize_createFigure (attachment : gmap string jsval) :
  2 <= nodeSize (createFigure attachment).
Proof.
  unfold createFigure. rewrite nodeSize_PNode. cbn [figureType isLeaf].
  pose proof (fragment_size_nonneg_all (captionContent attachment)). lia.
Qed.

(** With a transaction on the document of the state, the insertion next
    to a gallery completes: it adds one step at the end of the block of
    the cursor less the backtrack, and none for an empty input. *)
Lemma setAttachment_in_gallery_step options state tr dispatch cur bef inCurrent :
  tr_doc tr = doc state ->
  resolve (doc state) (anchor (selection state)) = Ok cur ->
  resolve (doc state) (clampBefore (anchor (selection state))) = Ok bef ->
  isInGalleryCurrent cur = Ok inCurrent ->
  inCurrent || isInGalleryAfter bef = true ->
  let nodes := map createFigure (toAttachments options) in
  let at_ := rp_end cur - (if inCurrent then 0 else 2) in
  exists tr',
    setAttachment options state tr dispatch =
    Ok {| returned := true; transaction := tr';
          dispatched := if dispatch then Some tr' else None |} /\
    tr_steps tr' =
    (tr_steps tr ++
     match nodes with
     | [] => []
     | _ :: _ => [{| step_from := at_; step_to := at_; step_content := nodes |}]
     end)%list /\
    tr_selection tr' = tr_selection tr.
Proof.
  intros Hdoc Hcur Hbef Hc Hg nodes at_.
  rewrite (setAttachment_in_gallery _ _ _ _ cur bef inCurrent Hcur Hbef Hc Hg).
  fold nodes at_. unfold tr_insert, tr_replaceWith. rewrite Z.eqb_refl.
  destruct (toAttachments options) as [|x xs] eqn:Hopts; subst nodes; cbn [map].
  - cbn [fragment_size andb bind]. rewrite Z.eqb_refl. cbn [andb bind].
    exists tr. rewrite app_nil_r. auto.
  - assert (Hsize : (fragment_size (createFigure x :: map createFigure xs) =? 0)
                    = false).
    { cbn [fragment_size]. pose proof (nodeSize_createFigure x).
      pose proof (fragment_size_nonneg_all (map createFigure xs)). lia. }
    rewrite Hsize. cbn [andb].
    assert (Hrange : in_range (tr_doc tr) at_ = true).
    { destruct (resolve_end_bounds _ _ _ Hcur) as (_ & Hlo & Hhi & _).
      destruct (resolve_end_bounds _ _ _ Hbef) as (_ & _ & _ & Hdeep).
      unfold in_range. rewrite Hdoc. subst at_.
      destruct inCurrent; [lia|]. cbn [orb] in Hg.
      unfold isInGalleryAfter in Hg.
      assert (Hb : 1 <= clampBefore (anchor (selection state))).
      { apply Hdeep. destruct (rp_node bef 1); [discriminate|discriminate]. }
      unfold clampBefore in Hb.
      destruct (anchor (selection state) - 2 <? 0) eqn:E; lia. }
    rewrite Hrange. cbn [andb bind].
    eexists. split; [reflexivity|]. split; reflexivity.
Qed.

(** Away from any gallery, one step replaces the range that starts one
    position before the selection by a paragraph, a gallery of the new
    figures and a paragraph, and the selection is sent to the end of what
    that step inserted. *)
Lemma setAttachment_new_gallery options state tr dispatch cur bef :
  resolve (doc state) (anchor (selection state)) = Ok cur ->
  resolve (doc state) (clampBefore (anchor (selection state))) = Ok bef ->
  isInGalleryCurrent cur = Ok false ->
  isInGalleryAfter bef = false ->
  in_range (tr_doc tr) (sel_from (selection state) - 1) = true ->
  in_range (tr_doc tr) (sel_to (selection state)) = true ->
  let tr' :=
    {| tr_doc := tr_doc tr;
       tr_steps :=
         (tr_steps tr ++
          [{| step_from := sel_from (selection state) - 1;
              step_to := sel_to (selection state);
              step_content :=
                [emptyParagraph;
                 createGallery (map createFigure (toAttachments options));
                 emptyParagraph] |}])%list;
       tr_selection :=
         Some (InsertionEnd (Z.of_nat (length (tr_steps tr))) (-1)) |} in
  setAttachment options state tr dispatch =
  Ok {| returned := true; transaction := tr';
        dispatched := if dispatch then Some tr' else None |}.
Proof.
  intros Hcur Hbef Hc Ha Hfrom Hto. unfold setAttachment.
  rewrite Hcur, Hbef. cbn [bind]. rewrite Hc. cbn [bind]. rewrite Ha.
  cbn [orb]. unfold tr_replaceWith. rewrite Hfrom, Hto.
  set (figs := map createFigure (toAttachments options)).
  assert (Hsize : (fragment_size [emptyParagraph; createGallery figs; emptyParagraph]
                   =? 0) = false).
  { pose proof (fragment_size_nonneg_all figs).
    unfold emptyParagraph, createGallery. cbn [fragment_size].
    rewrite !nodeSize_PNode. cbn [isLeaf paragraphType galleryType fragment_size].
    lia. }
  rewrite Hsize, andb_false_r. cbn [andb bind].
  unfold selectionToInsertionEnd. cbn [tr_doc tr_steps tr_selection].
  rewrite length_app. cbn [length].
  replace (Z.of_nat (length (tr_steps tr) + 1) - 1)
    with (Z.of_nat (length (tr_steps tr))) by lia.
  reflexivity.
Qed.

(** C2: with a gallery followed by a selected horizontal rule, the
    position two before the anchor lies inside the gallery, yet the
    command throws on the anchor, which has no node at depth 1: nothing
    is inserted. *)
Theorem setAttachment_after_gallery_at_top_level :
  (exists bef,
      resolve (doc stateRuleAfterGallery)
        (clampBefore (anchor (selection stateRuleAfterGallery))) = Ok bef /\
      isInGalleryAfter bef = true) /\
  setAttachment (inl sampleAttachment) stateRuleAfterGallery
    (freshTransaction stateRuleAfterGallery) true = Throw TypeError.
Proof.
  split.
  - eexists. split; vm_compute; reflexivity.
  - vm_compute. reflexivity.
Qed.

Example setAttachment_appends_after_gallery :
  exists tr',
    setAttachment (inl sampleAttachment) stateAfterGallery
      (freshTransaction stateAfterGallery) true =
    Ok {| returned := true; transaction := tr'; dispatched := Some tr' |} /\
    tr_steps tr' =
    [{| step_from := 3; step_to := 3; step_content := [sampleFigure] |}].
Proof. eexists. split; vm_compute; reflexivity. Qed.

Example setAttachment_appends_in_gallery :
  exists tr',
    setAttachment (inl sampleAttachment) stateFigureSelected
      (freshTransaction stateFigureSelected) true =
    Ok {| returned := true; transaction := tr'; dispatched := Some tr' |} /\
    tr_steps tr' =
    [{| step_from := 3; step_to := 3; step_content := [sampleFigure] |}].
Proof. eexists. split; vm_compute; reflexivity. Qed.

(** C9, as stated: an empty input would always produce a gallery without
    children.  With a figure of a gallery selected, the command
    completes and the transaction has no step at all. *)
Lemma setAttachment_empty_input_in_gallery :
  exists out,
    setAttachment (inr []) stateFigureSelected
      (freshTransaction stateFigureSelected) true = Ok out /\
    returned out = true /\
    tr_steps (transaction out) = [].
Proof. eexists. split; [vm_compute; reflexivity|]. split; reflexivity. Qed.

(** C10: with the whole document selected the anchor is position 0,
    which has no node at depth 1; the command throws instead of
    returning [true], with or without a dispatch function. *)
Theorem setAttachment_throws_at_top_level :
  setAttachment (inl sampleAttachment) stateAllSelected
    (freshTransaction stateAllSelected) false = Throw TypeError /\
  setAttachment (inr [sampleAttachment]) stateAllSelected
    (freshTransaction stateAllSelected) true = Throw TypeError /\
  setAttachment (inr []) stateAllSelected
    (freshTransaction stateAllSelected) true = Throw TypeError.
Proof. repeat split; vm_compute; reflexivity. Qed.

(** ** The node view *)





(** The offset that [findIndex] returns is the start of the child it
    indexes. *)
Lemma findIndex_loop_offset (l : list pmnode) (j : nat) (curPos p : Z) :
  let '(i, off) := findIndex_loop l j curPos p in
  (j <= i)%nat /\ off = curPos + fragment_size (take (i - j) l).
Proof.
  revert j curPos. induction l as [|x l IH]; intros j curPos; cbn [findIndex_loop].
  - rewrite Nat.sub_diag. simpl. split; [lia|lia].
  - destruct (curPos + nodeSize x >=? p).
    + destruct (curPos + nodeSize x =? p).
      * replace (S j - j)%nat with 1%nat by lia.
        simpl. split; lia.
      * rewrite Nat.sub_diag. simpl. split; lia.
    + specialize (IH (S j) (curPos + nodeSize x)).
      destruct (findIndex_loop l (S j) (curPos + nodeSize x) p) as [i off].
      destruct IH as [Hle ->]. split; [lia|].
      replace (i - j)%nat with (S (i - S j)) by lia. simpl. lia.
Qed.

Lemma fragment_size_take_all (l : list pmnode) :
  fragment_size (take (length l) l) = fragment_size l.
Proof. now rewrite firstn_all. Qed.

Lemma findIndex_offset (l : list pmnode) (p : Z) (i : nat) (off : Z) :
  findIndex l p = Ok (i, off) -> off = fragment_size (take i l).
Proof.
  unfold findIndex.
  destruct (p =? 0) eqn:H0; [intros H; inversion H; subst; simpl; lia|].
  destruct (p =? fragment_size l) eqn:Hs.
  { intros H; inversion H; subst. rewrite fragment_size_take_all. lia. }
  destruct ((p >? fragment_size l) || (p <? 0)); [discriminate|].
  pose proof (findIndex_loop_offset l 0 0 p) as H.
  destruct (findIndex_loop l 0 0 p) as [i' off'].
  intros E; inversion E; subst. destruct H as [_ ->].
  rewrite Nat.sub_0_r. lia.
Qed.










(** ** JSON *)

Example JSON_parse_empty : JSON_parse "" = Throw SyntaxError.
Proof. reflexivity. Qed.

Example JSON_parse_empty_object : JSON_parse "{}" = Ok (VObj []).
Proof. reflexivity. Qed.

Example JSON_parse_video :
  JSON_parse (JSON_stringify (VObj [("contentType", VStr "video/mp4"); ("n", VNum (-12));
                                    ("u", VUndefined); ("b", VBool true);
                                    ("a", VArr [VNull; VStr "x\y"])])) =
  Ok (VObj [("contentType", VStr "video/mp4"); ("n", VNum (-12));
            ("b", VBool true); ("a", VArr [VNull; VStr "x\y"])]).
Proof. vm_compute. reflexivity. Qed.

Lemma append_assoc (a b c : string) : (a +:+ b) +:+ c = a +:+ (b +:+ c).
Proof. induction a as [|x a IH]; [reflexivity|]. rewrite !append_cons. now rewrite IH. Qed.

Lemma append_nil_r (a : string) : a +:+ "" = a.
Proof. induction a as [|x a IH]; [reflexivity|]. rewrite append_cons. now rewrite IH. Qed.

(** Reading back one escaped character. *)
Lemma parse_string_body_escape_char (c : ascii) (tail : string) :
  parse_string_body (escape_char c +:+ tail) = prepend c (parse_string_body tail).
Proof.
  destruct c as [[] [] [] [] [] [] [] []]; reflexivity.
Qed.

Lemma parse_string_body_escape (s rest : string) :
  parse_string_body (escape s +:+ String dquote rest) = Some (s, rest).
Proof.
  induction s as [|c s IH].
  - reflexivity.
  - cbn [escape]. rewrite append_assoc, parse_string_body_escape_char, IH.
    reflexivity.
Qed.

Lemma quote_append (s rest : string) :
  quote s +:+ rest = String dquote (escape s +:+ String dquote rest).
Proof.
  unfold quote. rewrite append_cons, append_assoc. reflexivity.
Qed.

(** Decimal numerals: the digits of a numeral are read back as a whole
    when a character that is not a digit follows. *)
Lemma take_digits_uint (d : uint) (c : ascii) (r : string) :
  is_digit c = false ->
  take_digits (NilEmpty.string_of_uint d +:+ String c r) =
  (NilEmpty.string_of_uint d, String c r).
Proof.
  intros Hc. induction d as [|d IH|d IH|d IH|d IH|d IH|d IH|d IH|d IH|d IH|d IH];
    cbn [NilEmpty.string_of_uint];
    [rewrite append_nil; cbn [take_digits]; now rewrite Hc|..];
    rewrite append_cons; cbn [take_digits]; rewrite IH; reflexivity.
Qed.

(** The numeral of an integer has a digit and no leading zero. *)
Lemma to_int_canonical (n : Z) :
  match Z.to_int n with
  | Pos d | Neg d => d <> Nil /\ forall d', d = D0 d' -> d' = Nil
  end.
Proof.
  pose proof (DecimalZ.to_of (Z.to_int n)) as H. rewrite DecimalZ.of_to in H.
  destruct (Z.to_int n) as [d|d]; cbn [norm] in H.
  - injection H as H. split.
    + intros ->. discriminate.
    + intros d' ->. rewrite unorm_D0 in H. unfold unorm in H.
      destruct (nzhead d') eqn:E; try discriminate H.
      * now injection H as <-.
      * exfalso. exact (nzhead_nonzero _ _ E).
  - destruct (nzhead d) eqn:E; try discriminate H.
    1: { exfalso. exact (nzhead_nonzero _ _ E). }
    all: injection H as ->; (split; [discriminate|]); intros d' Hd; discriminate Hd.
Qed.

Lemma parse_unsigned_uint (negative : bool) (d : uint) (c : ascii) (r : string) :
  d <> Nil -> (forall d', d = D0 d' -> d' = Nil) ->
  is_digit c = false ->
  Ascii.eqb c "." || Ascii.eqb c "e" || Ascii.eqb c "E" = false ->
  parse_unsigned negative (NilEmpty.string_of_uint d +:+ String c r) =
  Some (VNum (if negative then - Z.of_uint d else Z.of_uint d), String c r).
Proof.
  intros Hnil Hzero Hc Hf. unfold parse_unsigned.
  rewrite (take_digits_uint d c r Hc). cbv beta iota.
  rewrite Hf. cbn [orb].
  pose proof (NilEmpty.usu d) as Hu.
  destruct d; try congruence; cbn [NilEmpty.string_of_uint] in *;
    rewrite Hu; try reflexivity.
  rewrite (Hzero d eq_refl). reflexivity.
Qed.

Lemma string_of_uint_head (d : uint) :
  d <> Nil ->
  exists c0 s0,
    NilEmpty.string_of_uint d = String c0 s0 /\
    is_digit c0 = true /\ Ascii.eqb c0 "-" = false /\ is_ws c0 = false.
Proof.
  intros Hnil. destruct d; try congruence; cbn [NilEmpty.string_of_uint];
    do 2 eexists; repeat split.
Qed.

(** An integer is read back from its decimal numeral. *)
Lemma parse_number_to_string (n : Z) (c : ascii) (r : string) :
  is_digit c = false ->
  Ascii.eqb c "." || Ascii.eqb c "e" || Ascii.eqb c "E" = false ->
  parse_number (Z_to_string n +:+ String c r) = Some (VNum n, String c r).
Proof.
  intros Hc Hf. unfold Z_to_string.
  pose proof (to_int_canonical n) as Hcan.
  pose proof (DecimalZ.of_to n) as Hof.
  destruct (Z.to_int n) as [d|d]; destruct Hcan as [Hnil Hzero];
    cbn [NilEmpty.string_of_int Z.of_int] in *.
  - destruct (string_of_uint_head d Hnil) as (c0 & s0 & Hs & _ & Hm & _).
    pose proof (parse_unsigned_uint false d c r Hnil Hzero Hc Hf) as H.
    rewrite Hs in *. rewrite append_cons in *. cbn [parse_number].
    rewrite Hm, H, Hof. reflexivity.
  - rewrite append_cons. cbn [parse_number].
    replace (Ascii.eqb "-" "-") with true by reflexivity.
    rewrite (parse_unsigned_uint true d c r Hnil Hzero Hc Hf), Hof. reflexivity.
Qed.

Lemma Z_to_string_head (n : Z) :
  exists c0 s0,
    Z_to_string n = String c0 s0 /\
    is_ws c0 = false /\ is_digit c0 || Ascii.eqb c0 "-" = true.
Proof.
  unfold Z_to_string. pose proof (to_int_canonical n) as Hcan.
  destruct (Z.to_int n) as [d|d]; destruct Hcan as [Hnil _];
    cbn [NilEmpty.string_of_int].
  - destruct (string_of_uint_head d Hnil) as (c0 & s0 & -> & Hd & _ & Hw).
    exists c0, s0. rewrite Hd. auto.
  - do 2 eexists. repeat split.
Qed.

(** A scalar is read back from its text when a comma or a closing brace
    follows. *)
Lemma parse_value_scalar (fuel : nat) (v : jsval) (c : ascii) (r : string) :
  json_scalar v = true -> c = ","%char \/ c = "}"%char ->
  parse_value (S fuel) (JSON_stringify v +:+ String c r) = Some (v, String c r).
Proof.
  intros Hv Hc.
  assert (Hd : is_digit c = false) by (destruct Hc; subst; reflexivity).
  assert (Hf : Ascii.eqb c "." || Ascii.eqb c "e" || Ascii.eqb c "E" = false)
    by (destruct Hc; subst; reflexivity).
  destruct v as [| |b|n|s|items|fields]; try discriminate.
  - reflexivity.
  - destruct b; reflexivity.
  - cbn [JSON_stringify].
    pose proof (parse_number_to_string n c r Hd Hf) as Hn.
    destruct (Z_to_string_head n) as (c0 & s0 & Hs & Hw & Hdisp).
    rewrite Hs in *. rewrite append_cons in *.
    cbn [parse_value skip_ws]. rewrite Hw, Hdisp. exact Hn.
  - cbn [JSON_stringify]. rewrite quote_append.
    cbn [parse_value skip_ws].
    replace (is_ws dquote) with false by reflexivity.
    replace (is_digit dquote || Ascii.eqb dquote "-") with false by reflexivity.
    replace (Ascii.eqb dquote dquote) with true by reflexivity.
    now rewrite parse_string_body_escape.
Qed.

Lemma stringify_object (fields : list (string * jsval)) :
  Forall (fun kv => json_scalar (snd kv) = true) fields ->
  JSON_stringify (VObj fields) =
  String "{" (join "," (map member_text fields) +:+ "}").
Proof.
  intros H. cbn [JSON_stringify]. rewrite append_cons, append_nil.
  do 3 f_equal. induction H as [|[k v] fields Hv _ IH]; [reflexivity|].
  cbn [map]. rewrite <- IH. cbn [snd] in Hv.
  destruct v; try discriminate; reflexivity.
Qed.

Lemma member_text_head (kv : string * jsval) :
  exists t, member_text kv = String dquote t.
Proof. unfold member_text, quote. rewrite append_cons. eauto. Qed.

Lemma parse_members_flat (fields : list (string * jsval)) :
  forall (fuel : nat) (rest : string),
    fields <> [] ->
    Forall (fun kv => json_scalar (snd kv) = true) fields ->
    (S (length fields) < fuel)%nat ->
    parse_members fuel (join "," (map member_text fields) +:+ String "}" rest) =
    Some (fields, rest).
Proof.
  induction fields as [|[k v] fields IH]; intros fuel rest Hne Hall Hfuel;
    [congruence|].
  inversion Hall as [|? ? Hv Hrest]; subst. cbn [snd] in Hv.
  destruct fuel as [|[|fuel]]; cbn [length] in Hfuel; try lia.
  assert (Hkey : forall tail,
             parse_members (S (S fuel)) (member_text (k, v) +:+ tail) =
             match parse_value (S fuel) (JSON_stringify v +:+ tail) with
             | Some (v', rest2) =>
                 match skip_ws rest2 with
                 | String "," rest3 =>
                     match parse_members (S fuel) rest3 with
                     | Some (fs, rest4) => Some ((k, v') :: fs, rest4)
                     | None => None
                     end
                 | String "}" rest3 => Some ([(k, v')], rest3)
                 | _ => None
                 end
             | None => None
             end).
  { intros tail. unfold member_text. cbn [fst snd].
    rewrite !append_assoc, quote_append.
    cbn [parse_members skip_ws].
    replace (is_ws dquote) with false by reflexivity.
    replace (Ascii.eqb dquote dquote) with true by reflexivity.
    rewrite parse_string_body_escape. rewrite append_cons, append_nil.
    reflexivity. }
  destruct fields as [|kv2 fields].
  - cbn [map join]. rewrite Hkey.
    rewrite (parse_value_scalar fuel v "}" rest Hv) by auto. reflexivity.
  - cbn [map join]. cbn [map join] in IH. rewrite !append_assoc, Hkey.
    rewrite append_cons, append_nil.
    rewrite (parse_value_scalar fuel v "," _ Hv) by auto.
    cbn [skip_ws]. replace (is_ws ",") with false by reflexivity.
    rewrite IH; [reflexivity|discriminate|assumption|cbn [length] in *; lia].
Qed.

Lemma length_append (a b : string) :
  String.length (a +:+ b) = (String.length a + String.length b)%nat.
Proof. induction a as [|c a IH]; [reflexivity|]. rewrite append_cons. cbn. now rewrite IH. Qed.

Lemma length_members (fields : list (string * jsval)) :
  (length fields <= String.length (join "," (map member_text fields)))%nat.
Proof.
  induction fields as [|kv fields IH]; [cbn; lia|].
  destruct (member_text_head kv) as [t Ht].
  destruct fields as [|kv2 fields]; cbn [map join length] in *.
  - rewrite Ht. cbn. lia.
  - rewrite !length_append, Ht. cbn [String.length]. lia.
Qed.

(** [JSON.parse] gives back a flat object of scalars written by
    [JSON.stringify]. *)
Lemma JSON_parse_stringify_flat (fields : list (string * jsval)) :
  Forall (fun kv => json_scalar (snd kv) = true) fields ->
  JSON_parse (JSON_stringify (VObj fields)) = Ok (VObj fields).
Proof.
  intros Hall. destruct fields as [|kv fields]; [reflexivity|].
  rewrite (stringify_object _ Hall). unfold JSON_parse.
  pose proof (length_members (kv :: fields)) as Hlen.
  set (members := join "," (map member_text (kv :: fields))) in *.
  assert (Hhead : exists t, members = String dquote t).
  { unfold members. destruct (member_text_head kv) as [t Ht].
    destruct fields; cbn [map join]; rewrite Ht, ?append_cons; eauto. }
  cbn [String.length]. rewrite length_append.
  replace (2 * S (String.length members + String.length "}") + 2)%nat
    with (S (S (2 * String.length members + 4)))%nat
    by (cbn [String.length]; lia).
  cbn [parse_value skip_ws].
  replace (is_ws "{") with false by reflexivity.
  replace (is_digit "{" || Ascii.eqb "{" "-") with false by reflexivity.
  replace (Ascii.eqb "{" dquote) with false by reflexivity.
  replace (Ascii.eqb "{" "n") with false by reflexivity.
  replace (Ascii.eqb "{" "t") with false by reflexivity.
  replace (Ascii.eqb "{" "f") with false by reflexivity.
  replace (Ascii.eqb "{" "[") with false by reflexivity.
  replace (Ascii.eqb "{" "{") with true by reflexivity.
  pose proof (parse_members_flat (kv :: fields)
                (S (2 * String.length members + 4)) "" ltac:(discriminate) Hall
                ltac:(lia)) as Hm.
  fold members in Hm.
  destruct Hhead as [t Ht]. rewrite Ht in *. rewrite append_cons in *.
  cbn [skip_ws]. replace (is_ws dquote) with false by reflexivity.
  rewrite Hm. reflexivity.
Qed.

(** ** Serialization *)

Lemma toTypeJS_string (c : string) (previewable : bool) :
  toTypeJS (VStr c) previewable = toType (Some c) previewable.
Proof.
  unfold toTypeJS, toType. cbn [truthy].
  destruct previewable, (String.eqb c ""); reflexivity.
Qed.

Lemma canPreviewJS_string (previewable : jsval) (ct : string) :
  canPreviewJS previewable (VStr ct) = Ok (canPreview (truthy previewable) (Some ct)).
Proof. unfold canPreviewJS, canPreview. destruct (truthy previewable); reflexivity. Qed.

Lemma toExtensionJS_string (fn : string) :
  toExtensionJS (VStr fn) = Ok (toExtension (Some fn)).
Proof.
  unfold toExtensionJS, toExtension. cbn [truthy].
  destruct (String.eqb fn ""); reflexivity.
Qed.

(** C7, as stated: a node with embedded content would be serialized
    with that content as markup before the caption.  The figure of such
    a node has the caption element as its only child. *)
Lemma renderHTML_leaves_content_out :
  exists attrs,
    renderHTML defaultHTMLAttributes sampleContentFigure =
    Ok (Spec "figure" attrs [figcaptionSpec]) /\
    attr (node_attrs sampleContentFigure) "content" = VStr "<p>x</p>".
Proof. eexists. split; vm_compute; reflexivity. Qed.

(** The figure [renderHTML] returns for a node whose content type and
    file name are strings. *)
Lemma renderHTML_figure
    (HTMLAttributes : list (string * jsval)) (node : pmnode) (ct fn : string) :
  attr (node_attrs node) "contentType" = VStr ct ->
  attr (node_attrs node) "fileName" = VStr fn ->
  let a := node_attrs node in
  renderHTML HTMLAttributes node =
  Ok (Spec "figure"
        (mergeAttributes HTMLAttributes
           [ ("class",
              VStr (js_to_string (get HTMLAttributes "class") +:+ " " +:+
                    toTypeJS (attr a "content")
                      (canPreview (truthy (attr a "previewable")) (Some ct))
                    +:+ " " +:+ toExtension (Some fn)));
             ("data-trix-content-type", VStr ct);
             ("data-trix-attachment",
              VStr (JSON_stringify (VObj (attachmentAttrs a))));
             ("data-trix-attributes",
              VStr (JSON_stringify
                      (VObj [("caption", attr a "caption");
                             ("presentation", VStr "gallery")]))) ])
        (if truthy (attr a "content") then [figcaptionSpec]
         else [imageSpec a; figcaptionSpec])).
Proof.
  intros Hct Hfn a. subst a. unfold renderHTML, figureAttributes.
  rewrite Hct, Hfn, canPreviewJS_string, toExtensionJS_string. cbn [bind].
  destruct (truthy (attr (node_attrs node) "content")); reflexivity.
Qed.

(** C7 (amended): for a node whose content type and file name are
    strings, serialization emits a figure element whose attributes are
    the options merged with the computed class list (base class, type
    class, extension class), the content type, the JSON blob of the
    attachment attributes and the JSON blob of caption and
    presentation; its children are an image element followed by the
    caption element when the node has no embedded content, and the
    caption element alone when it has; the caption element holds the
    content of the node. *)
Theorem renderHTML_structure
    (HTMLAttributes : list (string * jsval)) (node : pmnode) (ct fn : string) :
  attr (node_attrs node) "contentType" = VStr ct ->
  attr (node_attrs node) "fileName" = VStr fn ->
  let a := node_attrs node in
  renderHTML HTMLAttributes node =
  Ok (Spec "figure"
        (mergeAttributes HTMLAttributes
           [ ("class",
              VStr (js_to_string (get HTMLAttributes "class") +:+ " " +:+
                    toTypeJS (attr a "content")
                      (canPreview (truthy (attr a "previewable")) (Some ct))
                    +:+ " " +:+ toExtension (Some fn)));
             ("data-trix-content-type", VStr ct);
             ("data-trix-attachment",
              VStr (JSON_stringify (VObj (attachmentAttrs a))));
             ("data-trix-attributes",
              VStr (JSON_stringify
                      (VObj [("caption", attr a "caption");
                             ("presentation", VStr "gallery")]))) ])
        (if truthy (attr a "content") then [figcaptionSpec]
         else [imageSpec a; figcaptionSpec])) /\
  figcaptionSpec =
  Spec "figcaption"
    [("class", VStr "attachment__caption attachment__caption--edited")] [Hole] /\
  imageSpec a =
  Spec "img"
    [ ("src", js_or (attr a "url") (attr a "src"));
      ("contenteditable", VBool false);
      ("width", attr a "width");
      ("height", attr a "height") ] [].
Proof.
  intros Hct Hfn a. subst a. split; [|split; reflexivity].
  exact (renderHTML_figure HTMLAttributes node ct fn Hct Hfn).
Qed.

Lemma renderHTML_structure_witness :
  exists attrs,
    renderHTML defaultHTMLAttributes sampleFigure =
    Ok (Spec "figure" attrs [imageSpec (node_attrs sampleFigure); figcaptionSpec]) /\
    get attrs "class" =
    VStr "attachment attachment attachment--preview attachment--png".
Proof.
  destruct (renderHTML_structure defaultHTMLAttributes sampleFigure
              "image/png" "a.png" eq_refl eq_refl) as (H & _ & _).
  eexists. split; [exact H|]. vm_compute. reflexivity.
Defined.

(** ** Parsing *)

Example contentType_from_blob :
  contentType_parseHTML videoFigure = Ok (VStr "video/mp4").
Proof. vm_compute. reflexivity. Qed.

(** Without the metadata attribute the text handed to [JSON.parse] is
    empty, which is not JSON. *)
Example contentType_without_metadata :
  contentType_parseHTML bareFigure = Throw SyntaxError.
Proof. vm_compute. reflexivity. Qed.




(** ** The round trip *)

Arguments JSON_stringify : simpl never.

(** The element a figure node is serialized into. *)
Lemma serialize_shape (a : gmap string jsval) (content : list pmnode)
    (ct fn : string) :
  attr a "contentType" = VStr ct ->
  attr a "fileName" = VStr fn ->
  exists cls presentation image,
    serialize (PNode figureType a content) =
    Ok {| element :=
            DomElement "figure"
              [ ("class", cls);
                ("data-trix-attributes", presentation);
                ("data-trix-content-type", ct);
                ("data-trix-attachment", JSON_stringify (VObj (attachmentAttrs a))) ]
              (image ++
               [DomElement "figcaption"
                  [("class", "attachment__caption attachment__caption--edited")]
                  (renderInline content)]);
          wrapper := None |} /\
    (image = [] \/ exists attributes, image = [DomElement "img" attributes []]).
Proof.
  intros Hct Hfn. unfold serialize.
  rewrite (renderHTML_figure defaultHTMLAttributes (PNode figureType a content)
             ct fn Hct Hfn).
  cbn [bind node_attrs node_content].
  destruct (truthy (attr a "content"));
    cbn -[toExtension canPreview toTypeJS JSON_stringify attr append];
    destruct (negb (negb _)); rewrite app_nil_r.
  1,2: do 2 eexists; exists []; split; [reflexivity|left; reflexivity].
  all: do 2 eexists; eexists [_]; split; [reflexivity|right; eexists; reflexivity].
Qed.

Section Serialized.

(** A figure element as [serialize] builds it, around a flat blob. *)
Variables (cls presentation ct : string) (blob : list (string * jsval))
          (children : list DomNode).
Hypothesis blob_flat : Forall (fun kv => json_scalar (snd kv) = true) blob.

Let input : ParseInput :=
  {| element :=
       DomElement "figure"
         [ ("class", cls);
           ("data-trix-attributes", presentation);
           ("data-trix-content-type", ct);
           ("data-trix-attachment", JSON_stringify (VObj blob)) ]
         children;
     wrapper := None |}.

Lemma stringify_object_nonempty :
  String.eqb (JSON_stringify (VObj blob)) "" = false.
Proof. now rewrite (stringify_object blob blob_flat). Qed.

Lemma getAttribute_serialized_other (name : string) :
  name <> "class" -> name <> "data-trix-attributes" ->
  name <> "data-trix-content-type" -> name <> "data-trix-attachment" ->
  getAttribute (element input) name = None.
Proof.
  intros H1 H2 H3 H4. cbn [getAttribute element input find fst].
  rewrite (proj2 (String.eqb_neq _ _)) by congruence.
  rewrite (proj2 (String.eqb_neq _ _)) by congruence.
  rewrite (proj2 (String.eqb_neq _ _)) by congruence.
  rewrite (proj2 (String.eqb_neq _ _)) by congruence.
  reflexivity.
Qed.

Lemma getAttribute_serialized_blob :
  getAttribute (element input) "data-trix-attachment" =
  Some (JSON_stringify (VObj blob)).
Proof. reflexivity. Qed.

(** Fields are found in the blob. *)
Lemma findAttribute_serialized (name : string) :
  name <> "class" -> name <> "data-trix-attributes" ->
  name <> "data-trix-content-type" -> name <> "data-trix-attachment" ->
  findAttribute input name = lookup_field blob name.
Proof.
  intros H1 H2 H3 H4. unfold findAttribute.
  rewrite (getAttribute_serialized_other name H1 H2 H3 H4).
  rewrite getAttribute_serialized_blob.
  now rewrite (JSON_parse_stringify_flat blob blob_flat).
Qed.

Lemma contentType_parseHTML_serialized :
  lookup_field blob "content-type" = VUndefined ->
  contentType_parseHTML input =
  Ok (js_or (lookup_field blob "contentType") (VStr "application/octet-stream")).
Proof.
  intros Hnone. unfold contentType_parseHTML.
  rewrite findAttribute_serialized by discriminate. rewrite Hnone.
  cbn [truthy]. unfold attributeOr.
  rewrite getAttribute_serialized_blob, stringify_object_nonempty.
  now rewrite (JSON_parse_stringify_flat blob blob_flat).
Qed.

Lemma previewable_parseHTML_serialized :
  previewable_parseHTML input = Ok (lookup_field blob "previewable").
Proof.
  unfold previewable_parseHTML, attributeOr.
  rewrite getAttribute_serialized_blob, stringify_object_nonempty.
  now rewrite (JSON_parse_stringify_flat blob blob_flat).
Qed.

Lemma content_parseHTML_serialized :
  content_parseHTML input =
  Ok (js_or (js_or (lookup_field blob "content") VUndefined) (VStr "")).
Proof.
  unfold content_parseHTML.
  now rewrite findAttribute_serialized by discriminate.
Qed.

End Serialized.

Lemma persisted_scalar (v : jsval) : persisted v = true -> json_scalar v = true.
Proof. destruct v; (discriminate || reflexivity). Qed.

Lemma persisted_not_nullish (v : jsval) : persisted v = true -> nullish v = false.
Proof. destruct v; (discriminate || reflexivity). Qed.

Ltac blob_field a k :=
  unfold attachmentAttrs; cbn -[attr]; destruct (attr a k); reflexivity.

(** C1 (amended): for a figure node whose caption, content type, file
    name and content are strings, whose file size, height, width, sgid,
    url and src are strings, integers or booleans and whose caption
    content is plain text, the markup
    [renderHTML] gives parses back, by the rules of [addAttributes], to
    the values the node has for sgid, src, url, width, height, fileName,
    fileSize and content; to its content type when that is not empty
    and to ["application/octet-stream"] when it is; to the markup of the
    caption content when there is some and to the caption attribute
    when there is none; and to the defaults for attachmentId, progress
    and previewable, which are not serialized. *)
Theorem parse_serialize (a : gmap string jsval) (content : list pmnode)
    (cap ct fn c : string) :
  attr a "caption" = VStr cap ->
  attr a "contentType" = VStr ct ->
  attr a "fileName" = VStr fn ->
  attr a "content" = VStr c ->
  Forall (fun k => persisted (attr a k) = true)
    ["fileSize"; "height"; "width"; "sgid"; "url"; "src"] ->
  Forall (fun n => isText n = true) content ->
  exists input parsed,
    serialize (PNode figureType a content) = Ok input /\
    parse input = Ok parsed /\
    Forall (fun k => parsed !! k = Some (attr a k))
      ["sgid"; "src"; "url"; "width"; "height"; "fileName"; "fileSize"; "content"] /\
    parsed !! "contentType" =
      Some (VStr (if String.eqb ct "" then "application/octet-stream" else ct)) /\
    parsed !! "caption" =
      Some (VStr (if String.eqb (innerHTMLOf (renderInline content)) ""
                  then cap else innerHTMLOf (renderInline content))) /\
    parsed !! "attachmentId" = Some VNull /\
    parsed !! "progress" = Some (VNum 100) /\
    parsed !! "previewable" = Some (VBool false).
Proof.
  intros Hcap Hct Hfn Hc Hrest _.
  destruct (serialize_shape a content ct fn Hct Hfn)
    as (cls & presentation & image & Hser & Himage).
  assert (Hp : forall k, In k ["fileSize"; "height"; "width"; "sgid"; "url"; "src"] ->
                         persisted (attr a k) = true).
  { exact (proj1 (List.Forall_forall _ _) Hrest). }
  assert (Hflat : Forall (fun kv => json_scalar (snd kv) = true) (attachmentAttrs a)).
  { unfold attachmentAttrs. repeat constructor; cbn [snd];
      rewrite ?Hcap, ?Hct, ?Hfn, ?Hc; try reflexivity;
      apply persisted_scalar, Hp; cbn; tauto. }
  set (input := {| element := _; wrapper := None |}) in Hser.
  assert (Hfield : forall name,
             name <> "class" -> name <> "data-trix-attributes" ->
             name <> "data-trix-content-type" -> name <> "data-trix-attachment" ->
             findAttribute input name = lookup_field (attachmentAttrs a) name).
  { intros name. apply findAttribute_serialized, Hflat. }
  assert (Hcaption : caption_parseHTML input =
                     Ok (VStr (if String.eqb (innerHTMLOf (renderInline content)) ""
                               then cap else innerHTMLOf (renderInline content)))).
  { unfold caption_parseHTML. rewrite Hfield by discriminate.
    replace (lookup_field (attachmentAttrs a) "caption") with (attr a "caption")
      by (symmetry; blob_field a "caption").
    rewrite Hcap.
    assert (Hq : querySelector (element input) "figcaption" =
                 Some (DomElement "figcaption"
                         [("class", "attachment__caption attachment__caption--edited")]
                         (renderInline content))).
    { unfold input. destruct Himage as [-> | [attributes ->]]; reflexivity. }
    rewrite Hq. unfold js_or, innerHTML. cbn [node_children truthy].
    destruct (String.eqb (innerHTMLOf (renderInline content)) ""); reflexivity. }
  assert (HcontentType : contentType_parseHTML input =
                         Ok (VStr (if String.eqb ct ""
                                   then "application/octet-stream" else ct))).
  { unfold input. rewrite (contentType_parseHTML_serialized _ _ _ _ _ Hflat)
      by (unfold attachmentAttrs; reflexivity).
    replace (lookup_field (attachmentAttrs a) "contentType")
      with (attr a "contentType") by (symmetry; blob_field a "contentType").
    rewrite Hct. unfold js_or. cbn [truthy].
    destruct (String.eqb ct ""); reflexivity. }
  assert (Hcontent : content_parseHTML input = Ok (VStr c)).
  { unfold input. rewrite (content_parseHTML_serialized _ _ _ _ _ Hflat).
    replace (lookup_field (attachmentAttrs a) "content")
      with (attr a "content") by (symmetry; blob_field a "content").
    rewrite Hc. unfold js_or. cbn [truthy].
    destruct c; reflexivity. }
  assert (Hpreviewable : previewable_parseHTML input = Ok VUndefined).
  { unfold input. rewrite (previewable_parseHTML_serialized _ _ _ _ _ Hflat).
    unfold attachmentAttrs. reflexivity. }
  assert (Hnone : forall name,
             name <> "class" -> name <> "data-trix-attributes" ->
             name <> "data-trix-content-type" -> name <> "data-trix-attachment" ->
             getAttribute (element input) name = None).
  { intros name. apply getAttribute_serialized_other. }
  exists input. eexists. split; [exact Hser|]. split.
  - unfold parse, addAttributes.
    cbn [parseAttributes parseAttribute fst snd].
    rewrite Hcaption, HcontentType, Hcontent, Hpreviewable.
    rewrite !Hnone by discriminate. rewrite !Hfield by discriminate.
    replace (lookup_field (attachmentAttrs a) "sgid") with (attr a "sgid")
      by (symmetry; blob_field a "sgid").
    replace (lookup_field (attachmentAttrs a) "src") with (attr a "src")
      by (symmetry; blob_field a "src").
    replace (lookup_field (attachmentAttrs a) "height") with (attr a "height")
      by (symmetry; blob_field a "height").
    replace (lookup_field (attachmentAttrs a) "width") with (attr a "width")
      by (symmetry; blob_field a "width").
    replace (lookup_field (attachmentAttrs a) "filename") with (attr a "fileName")
      by (symmetry; blob_field a "fileName").
    replace (lookup_field (attachmentAttrs a) "filesize") with (attr a "fileSize")
      by (symmetry; blob_field a "fileSize").
    replace (lookup_field (attachmentAttrs a) "url") with (attr a "url")
      by (symmetry; blob_field a "url").
    cbn [bind nullish].
    rewrite (persisted_not_nullish (attr a "sgid")),
      (persisted_not_nullish (attr a "src")),
      (persisted_not_nullish (attr a "height")),
      (persisted_not_nullish (attr a "width")),
      (persisted_not_nullish (attr a "fileSize")),
      (persisted_not_nullish (attr a "url")) by (apply Hp; cbn; tauto).
    rewrite Hfn. cbn [nullish]. reflexivity.
  - split; [|repeat split].
    1: repeat (apply List.Forall_cons); [..|apply List.Forall_nil].
    all: rewrite ?Hfn, ?Hc;
      repeat (rewrite lookup_insert_ne by discriminate);
      apply lookup_insert_eq.
Qed.

Lemma parse_serialize_witness :
  exists input parsed,
    serialize sampleFigure = Ok input /\
    parse input = Ok parsed /\
    parsed !! "fileName" = Some (VStr "a.png") /\
    parsed !! "contentType" = Some (VStr "image/png") /\
    parsed !! "width" = Some (VStr "").
Proof.
  destruct (parse_serialize (node_attrs sampleFigure) [] "" "image/png" "a.png" ""
              eq_refl eq_refl eq_refl eq_refl)
    as (input & parsed & Hser & Hparse & Hfields & Hct & _).
  - repeat (apply List.Forall_cons); try apply List.Forall_nil; reflexivity.
  - apply List.Forall_nil.
  - exists input, parsed. split; [exact Hser|]. split; [exact Hparse|].
    pose proof (proj1 (List.Forall_forall _ _) Hfields) as Hf.
    split; [apply (Hf "fileName"); cbn; tauto|].
    split; [exact Hct|]. apply (Hf "width"); cbn; tauto.
Defined.

(** C1, as stated: every persisted field would come back from the
    markup.  A figure that is previewable by its flag and carries an
    attachment id comes back with the flag at [false] and the id at
    [null]: [renderHTML] writes neither of them. *)
Lemma parse_serialize_loses_previewable :
  exists input parsed,
    serialize sampleContentFigure = Ok input /\
    parse input = Ok parsed /\
    node_attrs sampleContentFigure !! "previewable" = Some (VBool true) /\
    parsed !! "previewable" = Some (VBool false) /\
    node_attrs sampleContentFigure !! "attachmentId" = Some (VStr "abc") /\
    parsed !! "attachmentId" = Some VNull.
Proof.
  eexists. eexists. split; [vm_compute; reflexivity|].
  split; [vm_compute; reflexivity|]. repeat split.
Qed.

(** ** File names and their extension class *)

Lemma search_extension_inv (s : string) :
  forall (b : bool) (caps : list string),
    search extensionPattern b s = Some caps ->
    exists base ext,
      s = base +:+ String "." ext /\ ext <> "" /\ all_word ext = true /\
      caps = [ext].
Proof.
  induction s as [|c s IH]; intros b caps H.
  - discriminate.
  - cbn [search] in H. rewrite rmatch_extensionPattern in H.
    destruct (Ascii.eqb "." c && negb (String.eqb s "") && all_word s) eqn:E.
    + apply andb_true_iff in E as [E Hw]. apply andb_true_iff in E as [Hc Hne].
      apply Ascii.eqb_eq in Hc. subst c.
      exists "", s. rewrite append_nil. repeat split; auto; [|congruence].
      intros ->. discriminate.
    + apply IH in H as (base & ext & -> & Hne & Hw & ->).
      exists (String c base), ext. rewrite append_cons. auto.
Qed.

(** X1: for a file name that is not empty, [toExtension] is decided by
    what follows the last dot: when the name ends in a dot and a
    non-empty run of word characters, the class is the prefix and that
    run in lower case, whatever comes before; when the name cannot be
    split in this way (no dot, nothing after the last dot, or another
    character after it), the class is ["attachment--undefined"]. *)
Theorem toExtension_by_suffix (fileName : string) :
  fileName <> "" ->
  (forall base ext,
      fileName = base +:+ String "." ext -> ext <> "" -> all_word ext = true ->
      toExtension (Some fileName) = "attachment--" +:+ toLowerCase ext) /\
  ((forall base ext,
       fileName = base +:+ String "." ext -> ext <> "" -> all_word ext = false) ->
   toExtension (Some fileName) = "attachment--undefined").
Proof.
  intros Hne. split.
  - intros base ext -> He Hw. now apply toExtension_with_extension.
  - intros Hnone. unfold toExtension, matchedExtension, str_match.
    destruct (search extensionPattern true fileName) as [caps|] eqn:Hs.
    + apply search_extension_inv in Hs as (base & ext & Hf & He & Hw & _).
      rewrite (Hnone base ext Hf He) in Hw. discriminate.
    + destruct fileName; [congruence|reflexivity].
Qed.

Lemma toExtension_by_suffix_witness :
  toExtension (Some "archive.tar.GZ") = "attachment--gz".
Proof.
  apply (proj1 (toExtension_by_suffix "archive.tar.GZ" ltac:(discriminate))
           "archive.tar" "GZ"); [reflexivity | discriminate | reflexivity].
Defined.

(** ** Values the class helpers cannot take *)

Lemma canPreviewJS_throws (previewable contentType : jsval) :
  (exists b, canPreviewJS previewable contentType = Ok b) \/
  canPreviewJS previewable contentType = Throw TypeError.
Proof.
  unfold canPreviewJS. destruct (truthy previewable); [eauto|].
  destruct contentType; eauto.
Qed.

Lemma canPreviewJS_ok (previewable contentType : jsval) :
  (exists b, canPreviewJS previewable contentType = Ok b) <->
  truthy previewable || isString contentType || nullish contentType = true.
Proof.
  unfold canPreviewJS. destruct (truthy previewable); cbn [orb].
  - split; eauto.
  - destruct contentType; cbn; split; intros H; eauto;
      try discriminate; destruct H as [? H]; discriminate.
Qed.

Lemma toExtensionJS_ok (fileName : jsval) :
  (exists s, toExtensionJS fileName = Ok s) <->
  negb (truthy fileName) || isString fileName = true.
Proof.
  unfold toExtensionJS. destruct (truthy fileName) eqn:Ht; cbn [negb orb].
  - destruct fileName; cbn; split; intros H; eauto;
      try discriminate; destruct H as [? H]; discriminate.
  - split; eauto.
Qed.

(** X2: [renderHTML] throws exactly when [match] is called on a value
    that is not a string: on a content type that is neither a string nor
    [null] or [undefined] while the previewable flag is not truthy, or on
    a file name that is truthy and not a string.  What it throws is a
    [TypeError], and a node it throws on cannot be given a view either. *)
Theorem renderHTML_throws (HTMLAttributes : list (string * jsval)) (node : pmnode) :
  let a := node_attrs node in
  let contentType := attr a "contentType" in
  let fileName := attr a "fileName" in
  ((exists e, renderHTML HTMLAttributes node = Throw e) <->
   negb (truthy (attr a "previewable")) &&
     negb (isString contentType || nullish contentType) ||
   truthy fileName && negb (isString fileName) = true) /\
  (forall e, renderHTML HTMLAttributes node = Throw e -> e = TypeError) /\
  (forall e getPos,
      renderHTML HTMLAttributes node = Throw e ->
      exists e', addNodeView node getPos = Throw e').
Proof.
  intros a contentType fileName. subst a contentType fileName.
  unfold renderHTML, addNodeView, figureAttributes.
  set (a := node_attrs node).
  pose proof (canPreviewJS_ok (attr a "previewable") (attr a "contentType")) as Hp.
  pose proof (toExtensionJS_ok (attr a "fileName")) as Hx.
  destruct (canPreviewJS_throws (attr a "previewable") (attr a "contentType"))
    as [[b Hb] | Hb]; rewrite Hb in *; cbn [bind].
  - assert (Hpt : truthy (attr a "previewable") || isString (attr a "contentType")
                  || nullish (attr a "contentType") = true) by (apply Hp; eauto).
    destruct (toExtensionJS (attr a "fileName")) as [s|e] eqn:Hs; cbn [bind].
    + assert (Hxt : negb (truthy (attr a "fileName")) || isString (attr a "fileName")
                    = true) by (apply Hx; eauto).
      repeat split.
      * intros [e He]. destruct (negb (truthy (attr a "content"))); discriminate.
      * intros H. exfalso.
        destruct (truthy (attr a "previewable")), (isString (attr a "contentType")),
          (nullish (attr a "contentType")), (truthy (attr a "fileName")),
          (isString (attr a "fileName")); discriminate.
      * intros e He. destruct (negb (truthy (attr a "content"))); discriminate.
      * intros e getPos He. destruct (negb (truthy (attr a "content"))); discriminate.
    + assert (He : e = TypeError).
      { unfold toExtensionJS in Hs. destruct (truthy (attr a "fileName"));
          [destruct (attr a "fileName")|]; congruence. }
      assert (Hxf : negb (truthy (attr a "fileName")) || isString (attr a "fileName")
                    = false).
      { apply not_true_iff_false. intros E. apply Hx in E as [? E]. discriminate. }
      repeat split; eauto.
      * intros _. apply orb_false_iff in Hxf as [H1 H2].
        apply negb_false_iff in H1. rewrite H1, H2. apply orb_true_r.
      * intros e0 H. congruence.
  - assert (Hpf : truthy (attr a "previewable") || isString (attr a "contentType")
                  || nullish (attr a "contentType") = false).
    { apply not_true_iff_false. intros E. apply Hp in E as [? E]. discriminate. }
    repeat split; eauto.
    + intros _. apply orb_false_iff in Hpf as [H1 H3].
      apply orb_false_iff in H1 as [H1 H2]. rewrite H1, H2, H3. reflexivity.
    + intros e H. congruence.
Qed.

(** ** The image in the view and in the markup *)

(** X3: for a node whose content type and file name are strings, the
    view shows the image element whenever the serialized figure has one,
    and the two differ exactly for a node with embedded content that can
    be previewed: its view shows the image, its markup has the caption
    only. *)
Theorem view_and_markup_image
    (HTMLAttributes : list (string * jsval)) (node : pmnode) (ct fn : string) :
  attr (node_attrs node) "contentType" = VStr ct ->
  attr (node_attrs node) "fileName" = VStr fn ->
  let a := node_attrs node in
  let preview := canPreview (truthy (attr a "previewable")) (Some ct) in
  exists attrs children shown,
    renderHTML HTMLAttributes node = Ok (Spec "figure" attrs children) /\
    viewChildren node = Ok shown /\
    (In (imageSpec a) children -> In ImageElement shown) /\
    (In ImageElement shown /\ ~ In (imageSpec a) children <->
     truthy (attr a "content") = true /\ preview = true) /\
    (In ImageElement shown <-> truthy (attr a "content") && negb preview = false) /\
    (In (imageSpec a) children <-> truthy (attr a "content") = false).
Proof.
  intros Hct Hfn a preview.
  rewrite (renderHTML_figure HTMLAttributes node ct fn Hct Hfn).
  unfold viewChildren. rewrite Hct, Hfn.
  rewrite canPreviewJS_string, toExtensionJS_string. cbn [bind].
  fold a. fold preview.
  assert (Hdiff : imageSpec a <> figcaptionSpec) by discriminate.
  clearbody preview.
  destruct (truthy (attr a "content")), preview; cbn [andb negb];
    do 3 eexists; (split; [reflexivity|]); (split; [reflexivity|]);
    cbn [In]; repeat split; intros; try tauto; try discriminate;
    try intuition congruence.
Qed.

Lemma view_and_markup_image_witness :
  exists attrs,
    renderHTML defaultHTMLAttributes sampleContentFigure =
    Ok (Spec "figure" attrs [figcaptionSpec]) /\
    viewChildren sampleContentFigure =
    Ok [AttachmentEditorElement; ImageElement; CaptionElement].
Proof.
  destruct (view_and_markup_image defaultHTMLAttributes sampleContentFigure
              "image/png" "a.png" eq_refl eq_refl)
    as (attrs & children & shown & Hr & Hv & _).
  exists attrs. split; [|reflexivity].
  rewrite Hr. vm_compute in Hr. inversion Hr. reflexivity.
Defined.

(** ** The attributes of a created figure *)

Lemma computeAttrs_lookup (defaults : list (string * jsval))
    (given : gmap string jsval) (k : string) :
  computeAttrs defaults given !! k =
  match find (fun kd => String.eqb (fst kd) k) defaults with
  | Some kd =>
      Some match attr given k with
           | VUndefined => snd kd
           | v => v
           end
  | None => None
  end.
Proof.
  unfold computeAttrs. induction defaults as [|[k0 d0] defaults IH].
  - apply lookup_empty.
  - cbn [map find fst snd]. rewrite list_to_map_cons. cbn [fst snd].
    destruct (String.eqb_spec k0 k) as [->|Hne].
    + apply lookup_insert_eq.
    + rewrite lookup_insert_ne by exact Hne. exact IH.
Qed.

Lemma createFigure_attr (attachment : gmap string jsval) (k : string) (d : jsval) :
  find (fun kd => String.eqb (fst kd) k) attributeDefaults = Some (k, d) ->
  attr (node_attrs (createFigure attachment)) k =
  match attr attachment k with
  | VUndefined => d
  | v => v
  end.
Proof.
  intros H. unfold createFigure, attr at 1. cbn [node_attrs].
  rewrite computeAttrs_lookup, H. reflexivity.
Qed.

(** ** A created figure and the load of its image *)

(** X5: the view of a figure made from an attachment whose content type
    can be previewed (and whose file name is a string or absent) writes
    the natural dimensions back on the load of its image exactly when
    the attachment came without a width or without a height; with both
    given, the load changes nothing. *)
Theorem created_figure_measures_itself
    (attachment : gmap string jsval) (ct : string) (p w h : Z) :
  attr attachment "contentType" = VStr ct ->
  canPreview false (Some ct) = true ->
  isString (attr attachment "fileName") || isUndefined (attr attachment "fileName")
    = true ->
  exists v,
    addNodeView (createFigure attachment) (Some p) = Ok v /\
    handleEvent v (ImageLoad w h) =
    if truthy (attr attachment "width") && truthy (attr attachment "height")
    then None
    else Some (SetNodeMarkup p
                 (<["width" := VNum w]>
                    (<["height" := VNum h]> (node_attrs (createFigure attachment))))).
Proof.
  intros Hct Hprev Hfn. unfold addNodeView.
  rewrite (createFigure_attr attachment "previewable" (VBool false) eq_refl).
  rewrite (createFigure_attr attachment "contentType" (VStr "") eq_refl).
  rewrite (createFigure_attr attachment "fileName" (VStr "") eq_refl).
  rewrite (createFigure_attr attachment "width" (VStr "") eq_refl).
  rewrite (createFigure_attr attachment "height" (VStr "") eq_refl).
  rewrite Hct.
  assert (Hp : canPreviewJS
                 match attr attachment "previewable" with
                 | VUndefined => VBool false
                 | v => v
                 end (VStr ct) = Ok true).
  { rewrite canPreviewJS_string. unfold canPreview in *. cbn [orb] in Hprev.
    rewrite Hprev. now rewrite orb_true_r. }
  rewrite Hp. cbn [bind].
  assert (Hx : exists s,
             toExtensionJS
               match attr attachment "fileName" with
               | VUndefined => VStr ""
               | v => v
               end = Ok s).
  { destruct (attr attachment "fileName"); try discriminate;
      [exists "" | rewrite toExtensionJS_string]; eauto. }
  destruct Hx as [s ->]. cbn [bind].
  eexists. split; [reflexivity|].
  cbn [handleEvent nv_onload nv_getPos nv_attrs andb].
  destruct (attr attachment "width") as [| |[]|n1|s1|?|?];
    destruct (attr attachment "height") as [| |[]|n2|s2|?|?]; cbn [truthy negb orb andb];
    repeat match goal with
           | |- context [Z.eqb ?n 0] => destruct (Z.eqb n 0)
           | |- context [String.eqb ?s ""] => is_var s; destruct (String.eqb s "")
           end; reflexivity.
Qed.

Lemma created_figure_measures_itself_witness :
  exists v,
    addNodeView sampleFigure (Some 1) = Ok v /\
    handleEvent v (ImageLoad 640 480) =
    Some (SetNodeMarkup 1
            (<["width" := VNum 640]>
               (<["height" := VNum 480]> (node_attrs sampleFigure)))).
Proof.
  exact (created_figure_measures_itself sampleAttachment "image/png" 1 640 480
           eq_refl eq_refl eq_refl).
Defined.

(** ** The transaction of the command *)

(** X6: whenever the command completes it returns [true], keeps the
    steps the transaction already had in front of at most one new step,
    leaves the selection of the transaction alone unless it added the
    step that makes a new gallery, and hands the transaction to
    [dispatch] exactly when there is one; without [dispatch] it builds
    the same transaction and completes in the same cases. *)
Theorem setAttachment_extends_transaction
    (options : gmap string jsval + list (gmap string jsval))
    (state : EditorState) (tr : Transaction) (dispatch : bool) (out : CommandOutcome) :
  setAttachment options state tr dispatch = Ok out ->
  returned out = true /\
  dispatched out = (if dispatch then Some (transaction out) else None) /\
  (exists new,
      tr_steps (transaction out) = (tr_steps tr ++ new)%list /\
      (length new <= 1)%nat /\
      (tr_selection (transaction out) = tr_selection tr \/
       new <> [] /\
       tr_selection (transaction out) =
       Some (InsertionEnd (Z.of_nat (length (tr_steps tr))) (-1)))) /\
  forall dispatch',
    setAttachment options state tr dispatch' =
    Ok {| returned := true;
          transaction := transaction out;
          dispatched := if dispatch' then Some (transaction out) else None |}.
Proof.
  unfold setAttachment. intros H.
  destruct (resolve (doc state) (anchor (selection state))) as [cur|];
    cbn [bind] in *; [|discriminate].
  destruct (resolve (doc state) (clampBefore (anchor (selection state)))) as [bef|];
    cbn [bind] in *; [|discriminate].
  destruct (isInGalleryCurrent cur) as [inCurrent|]; cbn [bind] in *; [|discriminate].
  destruct (inCurrent || isInGalleryAfter bef).
  - unfold tr_insert, tr_replaceWith in *.
    destruct ((_ =? _) && (_ =? 0)).
    + cbn [bind] in *. inversion H; subst out; clear H. cbn.
      repeat split; auto. exists []. rewrite app_nil_r. cbn. auto.
    + destruct (in_range _ _ && in_range _ _); cbn [bind] in *; [|discriminate].
      inversion H; subst out; clear H. cbn.
      repeat split; auto. eexists [_]. cbn. auto.
  - unfold tr_replaceWith in *.
    set (figs := map createFigure (toAttachments options)) in *.
    assert (Hsize : (fragment_size [emptyParagraph; createGallery figs; emptyParagraph]
                     =? 0) = false).
    { pose proof (fragment_size_nonneg_all figs).
      unfold emptyParagraph, createGallery. cbn [fragment_size].
      rewrite !nodeSize_PNode. cbn [isLeaf paragraphType galleryType fragment_size].
      lia. }
    rewrite Hsize, andb_false_r in *.
    destruct (in_range _ _ && in_range _ _); cbn [bind] in *; [|discriminate].
    inversion H; subst out; clear H. cbn.
    repeat split; auto. eexists [_]. split; [reflexivity|]. split; [cbn; lia|].
    right. split; [discriminate|]. rewrite length_app. cbn [length].
    do 2 f_equal. lia.
Qed.

Lemma setAttachment_extends_transaction_witness :
  exists out,
    setAttachment (inl sampleAttachment) stateAfterGallery
      (freshTransaction stateAfterGallery) false = Ok out /\
    dispatched out = None /\
    setAttachment (inl sampleAttachment) stateAfterGallery
      (freshTransaction stateAfterGallery) true =
    Ok {| returned := true;
          transaction := transaction out;
          dispatched := Some (transaction out) |}.
Proof.
  eexists. split; [vm_compute; reflexivity|].
  destruct (setAttachment_extends_transaction (inl sampleAttachment) stateAfterGallery
              (freshTransaction stateAfterGallery) false _ eq_refl)
    as (_ & Hd & _ & Hsame).
  split; [exact Hd|]. exact (Hsame true).
Defined.

(** ** Positions between the blocks of the document *)

Lemma take_size_S (l : list pmnode) (i : nat) (c : pmnode) :
  nth_error l i = Some c ->
  fragment_size (take (S i) l) = fragment_size (take i l) + nodeSize c.
Proof.
  revert i. induction l as [|x l IH]; intros [|i] H; try discriminate.
  - inversion H; subst. simpl. lia.
  - cbn [nth_error] in H. specialize (IH i H).
    change (take (S (S i)) (x :: l)) with (x :: take (S i) l).
    change (take (S i) (x :: l)) with (x :: take i l).
    cbn [fragment_size]. lia.
Qed.

Lemma take_size_mono (l : list pmnode) (i j : nat) :
  (i <= j)%nat -> fragment_size (take i l) <= fragment_size (take j l).
Proof.
  revert i j. induction l as [|x l IH]; intros i j Hij.
  - rewrite !firstn_nil. lia.
  - destruct i as [|i]; [simpl; apply fragment_size_nonneg_all|].
    destruct j as [|j]; [lia|].
    change (take (S i) (x :: l)) with (x :: take i l).
    change (take (S j) (x :: l)) with (x :: take j l).
    cbn [fragment_size]. specialize (IH i j ltac:(lia)). lia.
Qed.

Lemma take_size_le (l : list pmnode) (i : nat) :
  fragment_size (take i l) <= fragment_size l.
Proof.
  destruct (Nat.le_gt_cases i (length l)) as [H|H].
  - pose proof (take_size_mono l i (length l) H) as Hm.
    now rewrite fragment_size_take_all in Hm.
  - rewrite (firstn_all2 l) by lia. lia.
Qed.

(** A position on a boundary between children is found as such. *)
Lemma findIndex_boundary (l : list pmnode) (k : nat) :
  exists i,
    findIndex l (fragment_size (take k l)) = Ok (i, fragment_size (take k l)).
Proof.
  set (p := fragment_size (take k l)).
  assert (Hp : 0 <= p <= fragment_size l).
  { split; [apply fragment_size_nonneg_all | apply take_size_le]. }
  destruct (findIndex_spec l p Hp) as (i & off & Hfi & Hoff & Hcase).
  exists i. rewrite Hfi.
  destruct Hcase as [-> | (child & Hc & Hb & _)]; [reflexivity|].
  exfalso. apply findIndex_offset in Hfi.
  pose proof (take_size_S l i child Hc) as HS.
  destruct (Nat.le_gt_cases k i) as [Hki|Hki].
  - pose proof (take_size_mono l k i Hki). unfold p in *. lia.
  - pose proof (take_size_mono l (S i) k ltac:(lia)). unfold p in *. lia.
Qed.

Lemma resolve_boundary (d : pmnode) (k : nat) :
  exists rp,
    resolve d (fragment_size (take k (node_content d))) = Ok rp /\
    rp_node rp 1 = None.
Proof.
  set (p := fragment_size (take k (node_content d))).
  assert (Hp : 0 <= p <= content_size d).
  { split; [apply fragment_size_nonneg_all | apply take_size_le]. }
  unfold resolve.
  replace ((0 <=? p) && (p <=? content_size d)) with true by lia.
  cbn [resolve_loop].
  destruct (findIndex_boundary (node_content d) k) as [i Hi]. fold p in Hi.
  rewrite Hi. cbn [bind]. rewrite Z.sub_diag. cbn [Z.eqb bind app].
  eexists. split; reflexivity.
Qed.

(** X7: with the anchor on a boundary between the top-level nodes of
    the document (its start, its end, the position before a top-level
    node that is selected as a node), the command throws a [TypeError]
    for every input and every transaction, with or without [dispatch]:
    no node is there at depth 1 for the first gallery check to read. *)
Theorem setAttachment_throws_between_blocks
    (options : gmap string jsval + list (gmap string jsval))
    (state : EditorState) (tr : Transaction) (dispatch : bool) (k : nat) :
  anchor (selection state) = fragment_size (take k (node_content (doc state))) ->
  setAttachment options state tr dispatch = Throw TypeError.
Proof.
  intros Hanchor.
  destruct (resolve_boundary (doc state) k) as (rp & Hr & Hnode).
  rewrite <- Hanchor in Hr.
  exact (setAttachment_at_top_level options state tr dispatch rp Hr Hnode).
Qed.

Lemma setAttachment_throws_between_blocks_witness :
  setAttachment (inr [sampleAttachment; sampleAttachment]) stateRuleAfterGallery
    (freshTransaction stateRuleAfterGallery) true = Throw TypeError.
Proof.
  apply (setAttachment_throws_between_blocks _ stateRuleAfterGallery _ _ 1).
  reflexivity.
Defined.

(** ** Insertion next to a gallery *)

(** X8: with the anchor inside a top-level block and one of the two
    gallery checks holding, the command completes on a transaction over
    the document of the state: for a non-empty input it adds exactly one
    step, which inserts the figures made from the input, in order, at
    the end of the block of the anchor, or two positions before that end
    when only the position before the anchor lies in a gallery; that
    place is a position of the document; the selection of the
    transaction is not touched. *)
Theorem setAttachment_appends_to_gallery
    (options : gmap string jsval + list (gmap string jsval))
    (state : EditorState) (tr : Transaction) (dispatch : bool)
    (cur bef : ResolvedPos) (inCurrent : bool) :
  tr_doc tr = doc state ->
  resolve (doc state) (anchor (selection state)) = Ok cur ->
  resolve (doc state) (clampBefore (anchor (selection state))) = Ok bef ->
  isInGalleryCurrent cur = Ok inCurrent ->
  inCurrent || isInGalleryAfter bef = true ->
  toAttachments options <> [] ->
  let at_ := rp_end cur - (if inCurrent then 0 else 2) in
  exists tr',
    setAttachment options state tr dispatch =
    Ok {| returned := true; transaction := tr';
          dispatched := if dispatch then Some tr' else None |} /\
    tr_steps tr' =
    (tr_steps tr ++
     [{| step_from := at_; step_to := at_;
         step_content := map createFigure (toAttachments options) |}])%list /\
    tr_selection tr' = tr_selection tr /\
    in_range (doc state) at_ = true /\
    anchor (selection state) - 2 <= at_.
Proof.
  intros Hdoc Hcur Hbef Hc Hg Hne at_.
  destruct (setAttachment_in_gallery_step options state tr dispatch cur bef inCurrent
              Hdoc Hcur Hbef Hc Hg) as (tr' & Hrun & Hsteps & Hsel).
  exists tr'. split; [exact Hrun|].
  destruct (toAttachments options) as [|x xs] eqn:Hopts; [congruence|].
  cbn [map] in *. split; [exact Hsteps|]. split; [exact Hsel|].
  destruct (resolve_end_bounds _ _ _ Hcur) as (_ & Hlo & Hhi & _).
  destruct (resolve_end_bounds _ _ _ Hbef) as (_ & _ & _ & Hdeep).
  unfold in_range. subst at_.
  destruct inCurrent; [split; lia|]. cbn [orb] in Hg.
  unfold isInGalleryAfter in Hg.
  assert (Hb : 1 <= clampBefore (anchor (selection state))).
  { apply Hdeep. destruct (rp_node bef 1); discriminate. }
  unfold clampBefore in Hb.
  destruct (anchor (selection state) - 2 <? 0) eqn:E; split; lia.
Qed.

Lemma setAttachment_appends_to_gallery_witness :
  exists tr',
    setAttachment (inl sampleAttachment) stateAfterGallery
      (freshTransaction stateAfterGallery) true =
    Ok {| returned := true; transaction := tr'; dispatched := Some tr' |} /\
    tr_steps tr' =
    [{| step_from := 3; step_to := 3; step_content := [sampleFigure] |}].
Proof.
  eassert (Hcur : resolve (doc stateAfterGallery) 5 = Ok _)
    by (vm_compute; reflexivity).
  eassert (Hbef : resolve (doc stateAfterGallery) (clampBefore 5) = Ok _)
    by (vm_compute; reflexivity).
  destruct (setAttachment_appends_to_gallery (inl sampleAttachment) stateAfterGallery
              (freshTransaction stateAfterGallery) true _ _ false
              eq_refl Hcur Hbef eq_refl eq_refl ltac:(discriminate))
    as (tr' & Hrun & Hsteps & _).
  exists tr'. split; [exact Hrun|]. rewrite Hsteps. reflexivity.
Defined.

(** ** A click on the figure *)

Lemma findIndex_range (l : list pmnode) (q : Z) (i : nat) (off : Z) :
  findIndex l q = Ok (i, off) -> 0 <= q <= fragment_size l.
Proof.
  unfold findIndex. pose proof (fragment_size_nonneg_all l).
  destruct (q =? 0) eqn:H0; [lia|].
  destruct (q =? fragment_size l) eqn:Hs; [lia|].
  destruct ((q >? fragment_size l) || (q <? 0)) eqn:Hr; [discriminate|lia].
Qed.

(** What [findIndex] tells about the position it was asked for. *)
Lemma findIndex_found (l : list pmnode) (q : Z) (i : nat) (off : Z) :
  findIndex l q = Ok (i, off) ->
  0 <= q <= fragment_size l /\ off = fragment_size (take i l) /\
  (off = q \/
   exists child, nth_error l i = Some child /\ off < q < off + nodeSize child).
Proof.
  intros H. pose proof (findIndex_range l q i off H) as Hq.
  split; [exact Hq|]. split; [exact (findIndex_offset l q i off H)|].
  destruct (findIndex_spec l q Hq) as (i' & off' & H' & _ & Hcase).
  rewrite H in H'. inversion H'; subst i' off'.
  destruct Hcase as [-> | (child & Hc & Hb & _)]; [now left|].
  right. eauto.
Qed.

(** One position further, still inside the same child. *)
Lemma findIndex_succ (l : list pmnode) (q : Z) (i : nat) (off : Z) (child : pmnode) :
  findIndex l q = Ok (i, off) -> nth_error l i = Some child ->
  q + 1 < off + nodeSize child ->
  findIndex l (q + 1) = Ok (i, off).
Proof.
  intros H Hc Hfit.
  destruct (findIndex_found l q i off H) as (Hq & Hoff & Hcase).
  assert (Hle : off <= q) by (destruct Hcase as [-> | (c & _ & Hb)]; lia).
  pose proof (take_size_S l i child Hc) as HS.
  pose proof (take_size_le l (S i)) as Hall.
  assert (Hq' : 0 <= q + 1 <= fragment_size l) by lia.
  destruct (findIndex_spec l (q + 1) Hq') as (i' & off' & H' & _ & Hcase').
  rewrite H'. pose proof (findIndex_offset l (q + 1) i' off' H') as Hoff'.
  assert (Hii : i' = i).
  { destruct (Nat.lt_trichotomy i' i) as [Hlt | [Heq | Hgt]]; [|exact Heq|].
    - exfalso. pose proof (take_size_mono l i' i ltac:(lia)).
      destruct Hcase' as [Heq | (c' & Hc' & Hb' & _)]; [lia|].
      pose proof (take_size_S l i' c' Hc').
      pose proof (take_size_mono l (S i') i ltac:(lia)). lia.
    - exfalso. pose proof (take_size_mono l (S i) i' ltac:(lia)).
      destruct Hcase' as [Heq | (c' & Hc' & Hb' & _)]; lia. }
  subst i'. congruence.
Qed.

(** A node that [nodeAt] finds lies within the content it was looked
    for in. *)
Lemma nodeAt_loop_bounds (fuel : nat) :
  forall (n m : pmnode) (q : Z),
    nodeAt_loop fuel n q = Ok (Some m) -> isText m = false ->
    0 <= q /\ q + nodeSize m <= content_size n.
Proof.
  induction fuel as [|fuel IH]; intros n m q H Hm; [discriminate|].
  cbn [nodeAt_loop] in H.
  destruct (findIndex (node_content n) q) as [[i off]|] eqn:Hfi;
    cbn [bind] in H; [|discriminate].
  destruct (nth_error (node_content n) i) as [child|] eqn:Hc; [|discriminate].
  destruct (findIndex_found _ _ _ _ Hfi) as (Hq & Hoff & Hcase).
  pose proof (take_size_S _ i child Hc) as HS.
  pose proof (take_size_le (node_content n) (S i)) as Hall.
  unfold content_size.
  destruct ((off =? q) || isText child) eqn:Hhit.
  - inversion H; subst child. rewrite Hm, orb_false_r in Hhit. lia.
  - apply orb_false_iff in Hhit as [Hne Htext].
    destruct Hcase as [-> | (c & Hc' & Hb)]; [lia|].
    rewrite Hc in Hc'. inversion Hc'; subst c.
    apply IH in H as [Hlo Hhi]; [|exact Hm].
    destruct child as [s|t a c]; [discriminate|].
    rewrite nodeSize_PNode in *. unfold content_size in Hhi. cbn [node_content] in Hhi.
    pose proof (nodeSize_nonneg m).
    destruct (isLeaf t); lia.
Qed.

(** The position after the start of a node that [nodeAt] finds resolves
    to the start of the content of that node. *)
Lemma resolve_loop_inside (fuel : nat) :
  forall (n : pmnode) (q : Z) (t : node_type) (a : gmap string jsval)
         (c : list pmnode),
    nodeAt_loop fuel n q = Ok (Some (PNode t a c)) -> isLeaf t = false ->
    forall (fuel2 : nat) (start : Z) (pth : list (pmnode * nat * Z)),
      (Z.to_nat (q + 1) < fuel2)%nat ->
      exists e mid s,
        resolve_loop fuel2 n start (q + 1) pth =
        Ok ((pth ++ e :: mid ++ [(PNode t a c, O, s)])%list, 0).
Proof.
  induction fuel as [|fuel IH]; intros n q t a c H Hleaf fuel2 start pth Hfuel;
    [discriminate|].
  destruct (nodeAt_loop_bounds _ _ _ _ H eq_refl) as [Hq0 Hfit].
  cbn [nodeAt_loop] in H.
  destruct (findIndex (node_content n) q) as [[i off]|] eqn:Hfi;
    cbn [bind] in H; [|discriminate].
  destruct (nth_error (node_content n) i) as [child|] eqn:Hc; [|discriminate].
  destruct (findIndex_found _ _ _ _ Hfi) as (Hq & Hoff & Hcase).
  assert (Hoff0 : 0 <= off) by (rewrite Hoff; apply fragment_size_nonneg_all).
  clear Hoff.
  destruct fuel2 as [|fuel2]; [lia|].
  destruct ((off =? q) || isText child) eqn:Hhit.
  - inversion H; subst child. cbn [isText] in Hhit. rewrite orb_false_r in Hhit.
    assert (off = q) by lia. subst off.
    assert (Hsize : q + 1 < q + nodeSize (PNode t a c)).
    { rewrite nodeSize_PNode, Hleaf. pose proof (fragment_size_nonneg_all c). lia. }
    cbn [resolve_loop].
    rewrite (findIndex_succ _ _ _ _ _ Hfi Hc Hsize). cbn [bind].
    replace (q + 1 - q =? 0) with false by lia.
    rewrite Hc. cbn [isText].
    destruct fuel2 as [|fuel2]; [lia|].
    replace (q + 1 - q - 1) with 0 by lia.
    cbn [resolve_loop findIndex Z.eqb bind node_content].
    rewrite Z.sub_diag. cbn [Z.eqb].
    eexists. exists []. eexists. rewrite <- app_assoc. reflexivity.
  - apply orb_false_iff in Hhit as [Hne Htext].
    destruct Hcase as [-> | (c0 & Hc0 & Hb)]; [lia|].
    rewrite Hc in Hc0. inversion Hc0; subst c0.
    destruct (nodeAt_loop_bounds _ _ _ _ H eq_refl) as [Hlo Hhi].
    destruct child as [s|tc ac cc]; [discriminate|].
    assert (Hsize : q + 1 < off + nodeSize (PNode tc ac cc)).
    { rewrite nodeSize_PNode in *. unfold content_size in Hhi.
      cbn [node_content] in Hhi. rewrite Hleaf in Hhi.
      pose proof (fragment_size_nonneg_all c).
      destruct (isLeaf tc); lia. }
    cbn [resolve_loop].
    rewrite (findIndex_succ _ _ _ _ _ Hfi Hc Hsize). cbn [bind].
    replace (q + 1 - off =? 0) with false by lia.
    rewrite Hc. cbn [isText].
    replace (q + 1 - off - 1) with (q - off - 1 + 1) by lia.
    destruct (IH _ _ _ _ _ H Hleaf fuel2 (start + off + 1)
                (pth ++ [(n, i, start + off)])%list ltac:(lia))
      as (e & mid & s & Hres).
    rewrite Hres. rewrite <- app_assoc. cbn [app].
    eexists. exists (e :: mid). eexists. reflexivity.
Qed.

(** X9: a click on the figure of a view, outside of its caption, asks
    for the text selection at the position after the start of the node;
    when the node of the view is the one at the position [getPos()]
    gives, that position resolves inside this very node, at the start of
    its content.  A click inside the caption asks for nothing. *)
Theorem click_selects_start_of_figure
    (d : pmnode) (p : Z) (t : node_type) (a : gmap string jsval)
    (c : list pmnode) (v : NodeView) :
  addNodeView (PNode t a c) (Some p) = Ok v ->
  nodeAt d p = Ok (Some (PNode t a c)) ->
  isLeaf t = false ->
  handleEvent v (Click true) = None /\
  exists rp,
    handleEvent v (Click false) = Some (SetTextSelection (pos rp)) /\
    resolve d (p + 1) = Ok rp /\
    pos rp = p + 1 /\
    rp_node rp (depth rp) = Some (PNode t a c) /\
    parentOffset rp = 0 /\
    (1 <= depth rp)%nat.
Proof.
  intros Hv Hat Hleaf. unfold addNodeView in Hv.
  destruct (canPreviewJS _ _) as [preview|]; cbn [bind] in Hv; [|discriminate].
  destruct (toExtensionJS _) as [ext|]; cbn [bind] in Hv; [|discriminate].
  inversion Hv; subst v; clear Hv.
  split; [reflexivity|]. cbn [handleEvent nv_getPos].
  unfold nodeAt in Hat.
  destruct (nodeAt_loop_bounds _ _ _ _ Hat eq_refl) as [Hp0 Hfit].
  rewrite nodeSize_PNode, Hleaf in Hfit.
  pose proof (fragment_size_nonneg_all c) as Hc.
  destruct (resolve_loop_inside _ _ _ _ _ _ Hat Hleaf (S (Z.to_nat (p + 1))) 0 []
              ltac:(lia)) as (e & mid & s & Hres).
  cbn [app] in Hres.
  unfold resolve.
  replace ((0 <=? p + 1) && (p + 1 <=? content_size d)) with true by lia.
  rewrite Hres. cbn [bind fst snd].
  exists {| pos := p + 1;
            path := e :: (mid ++ [(PNode t a c, O, s)])%list;
            parentOffset := 0 |}.
  split; [reflexivity|]. split; [reflexivity|]. split; [reflexivity|].
  unfold rp_node, depth, path_node. cbn [path parentOffset length].
  rewrite length_app. cbn [length].
  replace (S (length mid + 1) - 1)%nat with (S (length mid)) by lia.
  cbn [nth_error]. rewrite nth_error_app2, Nat.sub_diag by lia. cbn [nth_error].
  split; [reflexivity|]. split; [reflexivity|]. lia.
Qed.

Lemma click_selects_start_of_figure_witness :
  exists rp,
    resolve (doc stateFigureSelected) 2 = Ok rp /\
    rp_node rp (depth rp) = Some sampleFigure /\
    parentOffset rp = 0.
Proof.
  destruct (click_selects_start_of_figure (doc stateFigureSelected) 1 figureType
              (node_attrs sampleFigure) [] _ eq_refl eq_refl eq_refl)
    as (_ & rp & _ & Hr & _ & Hn & Hpo & _).
  exists rp. repeat split; assumption.
Defined.

(** ** Elements that cannot be parsed *)

(** The rules in front of the one for the content type complete. *)
Lemma parse_until_contentType (input : ParseInput) (e : error) :
  contentType_parseHTML input = Throw e -> parse input = Throw e.
Proof.
  intros H. unfold parse, addAttributes.
  cbn [parseAttributes parseAttribute bind caption_parseHTML].
  now rewrite H.
Qed.

Lemma parse_until_previewable (input : ParseInput) (e : error) :
  (exists v, contentType_parseHTML input = Ok v) ->
  previewable_parseHTML input = Throw e -> parse input = Throw e.
Proof.
  intros [v Hv] H. unfold parse, addAttributes.
  cbn [parseAttributes parseAttribute bind caption_parseHTML content_parseHTML].
  now rewrite Hv, H.
Qed.

(** X10: an element whose [data-trix-attachment] is present and is not
    JSON is never parsed into a figure: whatever else it carries, an
    explicit content type included, parsing its attributes throws what
    [JSON.parse] throws on that text. *)
Theorem parse_rejects_malformed_metadata
    (input : ParseInput) (text : string) (e : error) :
  getAttribute (element input) "data-trix-attachment" = Some text ->
  text <> "" ->
  JSON_parse text = Throw e ->
  previewable_parseHTML input = Throw e /\
  parse input = Throw e.
Proof.
  intros Hattr Hne Hjson.
  assert (Heq : String.eqb text "" = false) by now apply String.eqb_neq.
  assert (Hprev : previewable_parseHTML input = Throw e).
  { unfold previewable_parseHTML, attributeOr. now rewrite Hattr, Heq, Hjson. }
  split; [exact Hprev|].
  destruct (contentType_parseHTML input) as [v|e'] eqn:Hct.
  - apply parse_until_previewable; eauto.
  - apply parse_until_contentType. rewrite Hct. f_equal.
    unfold contentType_parseHTML, attributeOr in Hct.
    rewrite Hattr, Heq, Hjson in Hct. cbn [bind] in Hct.
    destruct (truthy (findAttribute input "content-type")); congruence.
Qed.

Lemma parse_rejects_malformed_metadata_witness :
  parse brokenFigure = Throw SyntaxError.
Proof.
  apply (parse_rejects_malformed_metadata brokenFigure "{oops" SyntaxError);
    [reflexivity | discriminate | reflexivity].
Defined.

(** ** The parse rules and the markup they match *)

Lemma matchingRule_second (el : DomNode) (rule : ParseRule) :
  matchingRule el = Some rule -> contentElement rule = Some "figcaption" ->
  getAttribute el "data-trix-attachment" = None /\
  existsb (String.eqb "attachment") (classList el) = true /\
  exists attributes children, el = DomElement "figure" attributes children.
Proof.
  unfold matchingRule, parseHTML. cbn [find].
  destruct el as [data|tag attributes children]; [discriminate|].
  cbn [selects rule_tag rule_attribute rule_class].
  destruct (String.eqb_spec tag "figure") as [->|Hne]; cbn [andb]; [|discriminate].
  destruct (getAttribute (DomElement "figure" attributes children)
              "data-trix-attachment") as [text|] eqn:Hattr; cbn [andb].
  - intros H; inversion H; subst rule. discriminate.
  - destruct (existsb _ _) eqn:Hclass; [|discriminate].
    intros _ _. repeat split; eauto.
Qed.

(** X11: an element that only the rule for the standard output takes
    (a figure of class [attachment] without [data-trix-attachment]) is
    parsed with the previewable flag left to its default, and, unless
    [findAttribute] comes up with a content type for it, not at all: the
    rule for the content type hands the empty string to [JSON.parse],
    and the [SyntaxError] ends the parse. *)
Theorem parse_by_second_rule (input : ParseInput) (rule : ParseRule) :
  matchingRule (element input) = Some rule ->
  contentElement rule = Some "figcaption" ->
  previewable_parseHTML input = Ok VUndefined /\
  (truthy (findAttribute input "content-type") = false ->
   contentType_parseHTML input = Throw SyntaxError /\
   parse input = Throw SyntaxError) /\
  (truthy (findAttribute input "content-type") = true ->
   contentType_parseHTML input = Ok (findAttribute input "content-type")).
Proof.
  intros Hrule Hcontent.
  destruct (matchingRule_second _ _ Hrule Hcontent) as (Hattr & _ & _).
  split; [|split].
  - unfold previewable_parseHTML, attributeOr. now rewrite Hattr.
  - intros Hexplicit.
    assert (Hct : contentType_parseHTML input = Throw SyntaxError).
    { unfold contentType_parseHTML, attributeOr. now rewrite Hexplicit, Hattr. }
    split; [exact Hct|]. now apply parse_until_contentType.
  - intros Hexplicit. unfold contentType_parseHTML. now rewrite Hexplicit.
Qed.

Lemma parse_by_second_rule_witness :
  previewable_parseHTML bareFigure = Ok VUndefined /\
  parse bareFigure = Throw SyntaxError.
Proof.
  destruct (parse_by_second_rule bareFigure
              {| rule_tag := "figure"; rule_attribute := None;
                 rule_class := Some "attachment";
                 contentElement := Some "figcaption" |} eq_refl eq_refl)
    as (Hp & Hc & _).
  split; [exact Hp|]. exact (proj2 (Hc eq_refl)).
Defined.

(** X12: the figure a node is serialized into (content type and file
    name being strings) is taken by the first of the parse rules, the
    one that asks for [data-trix-attachment]; the rule with the caption
    as content element is not the one it is parsed by. *)
Theorem serialized_figure_matches_first_rule
    (a : gmap string jsval) (content : list pmnode) (ct fn : string) :
  attr a "contentType" = VStr ct ->
  attr a "fileName" = VStr fn ->
  exists input rule,
    serialize (PNode figureType a content) = Ok input /\
    matchingRule (element input) = Some rule /\
    nth_error parseHTML 0 = Some rule /\
    rule_attribute rule = Some "data-trix-attachment" /\
    contentElement rule = None.
Proof.
  intros Hct Hfn.
  destruct (serialize_shape a content ct fn Hct Hfn)
    as (cls & presentation & image & Hser & _).
  eexists. eexists. split; [exact Hser|].
  repeat split.
Qed.

Lemma serialized_figure_matches_first_rule_witness :
  exists input rule,
    serialize sampleFigure = Ok input /\
    matchingRule (element input) = Some rule /\
    contentElement rule = None.
Proof.
  destruct (serialized_figure_matches_first_rule (node_attrs sampleFigure) []
              "image/png" "a.png" eq_refl eq_refl)
    as (input & rule & Hs & Hm & _ & _ & Hc).
  exists input, rule. auto.
Defined.

(** ** The metadata written by [renderHTML] *)

Lemma stringify_written (fields : list (string * jsval)) :
  Forall (fun kv => json_scalar (snd kv) || isUndefined (snd kv) = true) fields ->
  JSON_stringify (VObj fields) =
  String "{" (join "," (map member_text (written fields)) +:+ "}").
Proof.
  intros H. unfold JSON_stringify. fold JSON_stringify.
  rewrite append_cons, append_nil.
  do 3 f_equal. induction H as [|[k v] fields Hv _ IH]; [reflexivity|].
  unfold written in *. cbn [List.filter snd].
  cbn [snd] in Hv.
  destruct v; try discriminate; cbn [isUndefined negb map]; rewrite <- IH;
    reflexivity.
Qed.

Lemma written_scalar (fields : list (string * jsval)) :
  Forall (fun kv => json_scalar (snd kv) || isUndefined (snd kv) = true) fields ->
  Forall (fun kv => json_scalar (snd kv) = true) (written fields).
Proof.
  intros H. unfold written.
  induction H as [|[k v] fields Hv _ IH]; [constructor|].
  cbn [List.filter snd] in *.
  destruct v; try discriminate; cbn [isUndefined negb]; auto.
Qed.

(** What [JSON.stringify] writes of an object of scalars, [JSON.parse]
    reads back, less the properties that are [undefined]. *)
Lemma JSON_parse_stringify_written (fields : list (string * jsval)) :
  Forall (fun kv => json_scalar (snd kv) || isUndefined (snd kv) = true) fields ->
  JSON_parse (JSON_stringify (VObj fields)) = Ok (VObj (written fields)).
Proof.
  intros H. rewrite (stringify_written fields H).
  rewrite <- (stringify_object (written fields) (written_scalar fields H)).
  apply JSON_parse_stringify_flat, written_scalar, H.
Qed.

(** ** The attributes of the serialized figure *)

Lemma get_set_eq (o : list (string * jsval)) (k : string) (v : jsval) :
  get (set o k v) k = v.
Proof.
  unfold get. induction o as [|[k0 x] o IH]; cbn [set find fst snd].
  - now rewrite String.eqb_refl.
  - destruct (String.eqb k0 k) eqn:E; cbn [find fst snd]; rewrite E; [reflexivity|].
    exact IH.
Qed.

Lemma get_set_ne (o : list (string * jsval)) (k k' : string) (v : jsval) :
  k <> k' -> get (set o k v) k' = get o k'.
Proof.
  intros Hne. unfold get. induction o as [|[k0 x] o IH]; cbn [set find fst snd].
  - now rewrite (proj2 (String.eqb_neq k k') Hne).
  - destruct (String.eqb_spec k0 k) as [->|Hk]; cbn [find fst snd].
    + now rewrite (proj2 (String.eqb_neq k k') Hne).
    + destruct (String.eqb k0 k'); [reflexivity|exact IH].
Qed.

Lemma get_mergeAttribute_ne (merged : list (string * jsval)) (key k : string)
    (value : jsval) :
  key <> k -> get (mergeAttribute merged (key, value)) k = get merged k.
Proof.
  intros Hne. unfold mergeAttribute.
  destruct (negb (truthy (get merged key))); [now apply get_set_ne|].
  destruct (String.eqb key "class"); [now apply get_set_ne|].
  destruct (String.eqb key "style"); now apply get_set_ne.
Qed.

Lemma get_mergeAttribute_eq (merged : list (string * jsval)) (key : string)
    (value : jsval) :
  key <> "class" -> key <> "style" ->
  get (mergeAttribute merged (key, value)) key = value.
Proof.
  intros Hc Hs. unfold mergeAttribute.
  destruct (negb (truthy (get merged key))); [apply get_set_eq|].
  rewrite (proj2 (String.eqb_neq _ _) Hc), (proj2 (String.eqb_neq _ _) Hs).
  apply get_set_eq.
Qed.

Lemma get_merge_other (b merged : list (string * jsval)) (k : string) :
  ~ In k (map fst b) -> get (fold_left mergeAttribute b merged) k = get merged k.
Proof.
  revert merged. induction b as [|[key value] b IH]; intros merged Hk; [reflexivity|].
  cbn [fold_left map fst In] in *.
  rewrite IH by tauto. apply get_mergeAttribute_ne. tauto.
Qed.

Lemma get_cons (o : list (string * jsval)) (key k : string) (value : jsval) :
  get ((key, value) :: o) k = if String.eqb key k then value else get o k.
Proof. unfold get. cbn [find fst snd]. destruct (String.eqb key k); reflexivity. Qed.

(** An options object, each key of which is there once, merges into
    itself. *)
Lemma get_merge_fresh (b merged : list (string * jsval)) (k : string) :
  List.NoDup (map fst b) ->
  (forall key, In key (map fst b) -> truthy (get merged key) = false) ->
  get (fold_left mergeAttribute b merged) k =
  if existsb (String.eqb k) (map fst b) then get b k else get merged k.
Proof.
  revert merged. induction b as [|[key value] b IH]; intros merged Hnd Hfree;
    [reflexivity|].
  cbn [fold_left map fst] in *. inversion Hnd as [|? ? Hnotin Hnd']; subst.
  assert (Hstep : mergeAttribute merged (key, value) = set merged key value).
  { unfold mergeAttribute. now rewrite (Hfree key (or_introl eq_refl)). }
  rewrite Hstep. rewrite IH; [|exact Hnd'|].
  - cbn [existsb]. rewrite get_cons.
    destruct (String.eqb_spec k key) as [->|Hne].
    + rewrite String.eqb_refl. cbn [orb].
      replace (existsb (String.eqb key) (map fst b)) with false.
      * apply get_set_eq.
      * symmetry. apply not_true_iff_false. intros E.
        apply existsb_exists in E as (x & Hin & Hx).
        apply String.eqb_eq in Hx. subst x. contradiction.
    + rewrite (proj2 (String.eqb_neq key k)) by congruence. cbn [orb].
      destruct (existsb (String.eqb k) (map fst b)); [reflexivity|].
      apply get_set_ne. congruence.
  - intros key' Hin. rewrite get_set_ne; [apply Hfree; now right|].
    intros ->. contradiction.
Qed.

(** X13: whatever the [HTMLAttributes] option holds, the figure of a
    node (content type and file name being strings) carries the content
    type of the node, the JSON text of its attachment attributes and the
    JSON text of its caption and presentation under the three
    [data-trix-] names; every other attribute of the option except
    [class] is passed on to the figure as it is. *)
Theorem renderHTML_attributes
    (HTMLAttributes : list (string * jsval)) (node : pmnode) (ct fn : string) :
  attr (node_attrs node) "contentType" = VStr ct ->
  attr (node_attrs node) "fileName" = VStr fn ->
  List.NoDup (map fst HTMLAttributes) ->
  let a := node_attrs node in
  exists attrs children,
    renderHTML HTMLAttributes node = Ok (Spec "figure" attrs children) /\
    get attrs "data-trix-content-type" = VStr ct /\
    get attrs "data-trix-attachment" =
      VStr (JSON_stringify (VObj (attachmentAttrs a))) /\
    get attrs "data-trix-attributes" =
      VStr (JSON_stringify
              (VObj [("caption", attr a "caption");
                     ("presentation", VStr "gallery")])) /\
    forall k,
      ~ In k ["class"; "data-trix-content-type"; "data-trix-attachment";
              "data-trix-attributes"] ->
      get attrs k = get HTMLAttributes k.
Proof.
  intros Hct Hfn Hnd a.
  rewrite (renderHTML_figure HTMLAttributes node ct fn Hct Hfn). fold a.
  do 2 eexists. split; [reflexivity|].
  unfold mergeAttributes.
  set (merged := fold_left mergeAttribute HTMLAttributes []).
  cbn [fold_left].
  repeat split.
  - rewrite !get_mergeAttribute_ne by discriminate.
    now apply get_mergeAttribute_eq.
  - rewrite !get_mergeAttribute_ne by discriminate.
    now apply get_mergeAttribute_eq.
  - now apply get_mergeAttribute_eq.
  - intros k Hk. cbn [In] in Hk.
    rewrite !get_mergeAttribute_ne by (intros <-; tauto).
    unfold merged. rewrite get_merge_fresh; [|exact Hnd|reflexivity].
    destruct (existsb (String.eqb k) (map fst HTMLAttributes)) eqn:E; [reflexivity|].
    unfold get. cbn [find].
    destruct (find _ HTMLAttributes) as [kv|] eqn:Hf; [|reflexivity].
    exfalso. apply find_some in Hf as [Hin Hkv]. apply String.eqb_eq in Hkv.
    apply not_true_iff_false in E. apply E, existsb_exists.
    exists (fst kv). split; [now apply in_map|]. rewrite Hkv. apply String.eqb_refl.
Qed.

Lemma renderHTML_attributes_witness :
  exists attrs children,
    renderHTML
      (("data-controller", VStr "lightbox") :: defaultHTMLAttributes) sampleFigure =
    Ok (Spec "figure" attrs children) /\
    get attrs "data-controller" = VStr "lightbox" /\
    get attrs "data-trix-content-type" = VStr "image/png".
Proof.
  destruct (renderHTML_attributes
              (("data-controller", VStr "lightbox") :: defaultHTMLAttributes)
              sampleFigure "image/png" "a.png" eq_refl eq_refl)
    as (attrs & children & Hr & Hct & _ & _ & Hother).
  - repeat constructor; cbn; intuition discriminate.
  - exists attrs, children. split; [exact Hr|]. split; [|exact Hct].
    rewrite Hother; [reflexivity|]. cbn. intuition discriminate.
Defined.

(** X14: the [data-trix-attachment] attribute of the serialized figure
    is JSON: when caption, content type, content, file name, file size,
    height, width, sgid, url and src of the node are strings, integers,
    booleans, [null] or [undefined], [JSON.parse] reads the text back
    as an object with exactly these properties in this order, under the
    names [filename] and [filesize] for file name and size, less those
    that are [undefined]. *)
Theorem renderHTML_metadata_parses
    (HTMLAttributes : list (string * jsval)) (node : pmnode) (ct fn : string) :
  attr (node_attrs node) "contentType" = VStr ct ->
  attr (node_attrs node) "fileName" = VStr fn ->
  Forall (fun kv => json_scalar (snd kv) || isUndefined (snd kv) = true)
    (attachmentAttrs (node_attrs node)) ->
  exists attrs children text,
    renderHTML HTMLAttributes node = Ok (Spec "figure" attrs children) /\
    get attrs "data-trix-attachment" = VStr text /\
    JSON_parse text = Ok (VObj (written (attachmentAttrs (node_attrs node)))) /\
    map fst (attachmentAttrs (node_attrs node)) =
    ["caption"; "contentType"; "content"; "filename"; "filesize"; "height";
     "width"; "sgid"; "url"; "src"].
Proof.
  intros Hct Hfn Hflat.
  rewrite (renderHTML_figure HTMLAttributes node ct fn Hct Hfn).
  do 3 eexists. split; [reflexivity|].
  unfold mergeAttributes. cbn [fold_left].
  split; [|split; [|reflexivity]].
  - rewrite !get_mergeAttribute_ne by discriminate.
    now apply get_mergeAttribute_eq.
  - now apply JSON_parse_stringify_written.
Qed.

Lemma renderHTML_metadata_parses_witness :
  exists attrs children text,
    renderHTML defaultHTMLAttributes sampleFigure = Ok (Spec "figure" attrs children) /\
    get attrs "data-trix-attachment" = VStr text /\
    JSON_parse text =
    Ok (VObj [("caption", VStr ""); ("contentType", VStr "image/png");
              ("content", VStr ""); ("filename", VStr "a.png");
              ("filesize", VStr ""); ("height", VStr ""); ("width", VStr "");
              ("sgid", VStr ""); ("url", VStr ""); ("src", VStr "")]).
Proof.
  destruct (renderHTML_metadata_parses defaultHTMLAttributes sampleFigure
              "image/png" "a.png" eq_refl eq_refl)
    as (attrs & children & text & Hr & Hg & Hp & _).
  - repeat constructor.
  - exists attrs, children, text. auto.
Defined.

(** ** The command on a selection inside the document *)

(** With blocks only at the top level, a position has no node at depth
    1 exactly when it lies on a boundary between them. *)
Lemma resolve_top_level (d : pmnode) (p : Z) (rp : ResolvedPos) :
  resolve d p = Ok rp ->
  Forall (fun n => isText n = false) (node_content d) ->
  rp_node rp 1 = None <-> exists k, p = fragment_size (take k (node_content d)).
Proof.
  intros Hr Hblocks. split.
  - intros Hnode. unfold resolve in Hr.
    destruct ((0 <=? p) && (p <=? content_size d)) eqn:Hrange; [|discriminate].
    cbn [resolve_loop] in Hr.
    destruct (findIndex (node_content d) p) as [[i off]|] eqn:Hfi;
      cbn [bind] in Hr; [|discriminate].
    destruct (findIndex_found _ _ _ _ Hfi) as (Hq & Hoff & Hcase).
    destruct Hcase as [Heq | (child & Hc & Hb)]; [exists i; lia|].
    exfalso. replace (p - off =? 0) with false in Hr by lia.
    rewrite Hc in Hr.
    assert (Htext : isText child = false).
    { apply nth_error_In in Hc.
      exact (proj1 (List.Forall_forall _ _) Hblocks child Hc). }
    rewrite Htext in Hr.
    destruct (resolve_loop (Z.to_nat p) child (0 + off + 1) (p - off - 1)
                ([] ++ [(d, i, 0 + off)])) as [[pth po]|] eqn:Hloop;
      cbn [bind] in Hr; [|discriminate].
    inversion Hr; subst rp; clear Hr.
    assert (Hoff0 : 0 <= off) by (rewrite Hoff; apply fragment_size_nonneg_all).
    destruct child as [txt|t a c]; [discriminate|].
    rewrite nodeSize_PNode in Hb.
    apply resolve_loop_end in Hloop as (n & _ & _ & Hlen & _).
    + unfold rp_node, path_node in Hnode. cbn [path fst app length] in *.
      destruct pth as [|e1 [|e2 pth]]; cbn [length] in Hlen; try lia.
      cbn [nth_error] in Hnode. destruct e2 as [[? ?] ?]. discriminate.
    + cbn [app length path_start nth_error]. lia.
    + unfold content_size. cbn [node_content]. destruct (isLeaf t); lia.
  - intros [k ->]. destruct (resolve_boundary d k) as (rp' & Hr' & Hnode).
    congruence.
Qed.

(** X15: on a transaction over the document of the state, with both
    ends of the selection in the document and the lower end not at its
    very start, the command either completes or throws a [TypeError],
    and it throws exactly when the anchor resolves outside of every
    top-level block, which, in a document with blocks only at the top
    level, is when the anchor lies on a boundary between them; it never
    throws a [RangeError]. *)
Theorem setAttachment_outcome
    (options : gmap string jsval + list (gmap string jsval))
    (state : EditorState) (tr : Transaction) (dispatch : bool) :
  tr_doc tr = doc state ->
  1 <= sel_from (selection state) ->
  sel_to (selection state) <= content_size (doc state) ->
  exists cur,
    resolve (doc state) (anchor (selection state)) = Ok cur /\
    match rp_node cur 1 with
    | None => setAttachment options state tr dispatch = Throw TypeError
    | Some _ =>
        exists tr',
          setAttachment options state tr dispatch =
          Ok {| returned := true; transaction := tr';
                dispatched := if dispatch then Some tr' else None |}
    end /\
    (Forall (fun n => isText n = false) (node_content (doc state)) ->
     rp_node cur 1 = None <->
     exists k,
       anchor (selection state) = fragment_size (take k (node_content (doc state)))).
Proof.
  intros Hdoc Hfrom Hto.
  assert (Hanchor : 1 <= anchor (selection state) <= content_size (doc state)).
  { unfold sel_from, sel_to in *. lia. }
  destruct (resolve_total (doc state) (anchor (selection state)) ltac:(lia))
    as [cur Hcur].
  destruct (resolve_total (doc state) (clampBefore (anchor (selection state))))
    as [bef Hbef].
  { unfold clampBefore. destruct (anchor (selection state) - 2 <? 0) eqn:E; lia. }
  exists cur. split; [exact Hcur|].
  split; [|intros Hblocks; exact (resolve_top_level _ _ _ Hcur Hblocks)].
  destruct (rp_node cur 1) as [n|] eqn:Hnode.
  - assert (Hc : isInGalleryCurrent cur = Ok (isGallery n)).
    { unfold isInGalleryCurrent. now rewrite Hnode. }
    destruct (isGallery n || isInGalleryAfter bef) eqn:Hg.
    + destruct (setAttachment_in_gallery_step options state tr dispatch cur bef
                  (isGallery n) Hdoc Hcur Hbef Hc Hg) as (tr' & Hrun & _).
      eauto.
    + apply orb_false_iff in Hg as [Hcurrent Hafter]. rewrite Hcurrent in Hc.
      eexists.
      apply (setAttachment_new_gallery options state tr dispatch cur bef
               Hcur Hbef Hc Hafter);
        unfold in_range; rewrite Hdoc; unfold sel_from, sel_to in *; lia.
  - exact (setAttachment_at_top_level options state tr dispatch cur Hcur Hnode).
Qed.

Lemma setAttachment_outcome_witness :
  exists tr',
    setAttachment (inl sampleAttachment) stateInParagraph
      (freshTransaction stateInParagraph) true =
    Ok {| returned := true; transaction := tr'; dispatched := Some tr' |}.
Proof.
  destruct (setAttachment_outcome (inl sampleAttachment) stateInParagraph
              (freshTransaction stateInParagraph) true eq_refl)
    as (cur & Hcur & H & _); [vm_compute; discriminate | vm_compute; discriminate |].
  vm_compute in Hcur. inversion Hcur; subst cur; clear Hcur.
  exact H.
Defined.

(** ** Views that leave the document alone *)

(** X16: the view of a node that cannot be previewed, or that has both
    a width and a height, or whose position is not to be had, never
    asks for a change of the document: whatever happens to it, the only
    request it makes is for a text selection. *)
Theorem view_leaves_document_alone
    (node : pmnode) (getPos : option Z) (v : NodeView) :
  addNodeView node getPos = Ok v ->
  canPreviewJS (attr (node_attrs node) "previewable")
    (attr (node_attrs node) "contentType") = Ok false \/
  truthy (attr (node_attrs node) "width") &&
    truthy (attr (node_attrs node) "height") = true \/
  getPos = None ->
  forall (e : ViewEvent) (r : ViewRequest),
    handleEvent v e = Some r ->
    (exists p, r = SetTextSelection p) /\
    forall d, applyRequest d r = Ok d.
Proof.
  intros Hv Hcase e r He. unfold addNodeView in Hv.
  destruct (canPreviewJS _ _) as [preview|] eqn:Hp; cbn [bind] in Hv; [|discriminate].
  destruct (toExtensionJS _) as [ext|]; cbn [bind] in Hv; [|discriminate].
  inversion Hv; subst v; clear Hv.
  destruct e as [inside|w h]; cbn [handleEvent nv_onload nv_getPos nv_attrs] in He.
  - destruct inside; [discriminate|].
    destruct getPos as [p|]; [|discriminate].
    inversion He; subst r. split; [eauto|reflexivity].
  - exfalso.
    destruct Hcase as [Hno | [Hdims | ->]].
    + inversion Hno; subst preview. discriminate.
    + apply andb_true_iff in Hdims as [Hw Hh]. rewrite Hw, Hh in He.
      rewrite andb_false_r in He. discriminate.
    + destruct (preview && _); discriminate.
Qed.

Lemma view_leaves_document_alone_witness :
  exists v,
    addNodeView pdfFigure (Some 1) = Ok v /\
    handleEvent v (Click false) = Some (SetTextSelection 2) /\
    applyRequest (doc stateFigureSelected) (SetTextSelection 2) =
    Ok (doc stateFigureSelected).
Proof.
  eexists. split; [vm_compute; reflexivity|]. split; [reflexivity|].
  exact (proj2 (view_leaves_document_alone pdfFigure (Some 1) _ eq_refl
                  (or_introl eq_refl) (Click false) (SetTextSelection 2) eq_refl)
           (doc stateFigureSelected)).
Defined.

(** ** The class names of the serialized figure *)

Lemma classNames_token (t rest current : string) :
  spaceless t = true ->
  classNames (t +:+ rest) current = classNames rest (current +:+ t).
Proof.
  revert current. induction t as [|c t IH]; intros current Ht.
  - now rewrite append_nil, append_nil_r.
  - cbn [spaceless] in Ht. apply andb_true_iff in Ht as [Hc Ht].
    apply negb_true_iff in Hc.
    rewrite append_cons. cbn [classNames]. rewrite Hc, IH by exact Ht.
    f_equal. rewrite append_assoc. reflexivity.
Qed.

Lemma classNames_space (rest current : string) :
  classNames (" " +:+ rest) current =
  if String.eqb current "" then classNames rest ""
  else current :: classNames rest "".
Proof. reflexivity. Qed.

Lemma classNames_last (t : string) :
  spaceless t = true ->
  classNames t "" = if String.eqb t "" then [] else [t].
Proof.
  intros Ht. rewrite <- (append_nil_r t) at 1.
  rewrite (classNames_token t "" "" Ht). reflexivity.
Qed.

Lemma lower_word_spaceless (s : string) :
  all_word s = true -> spaceless (toLowerCase s) = true.
Proof.
  induction s as [|c s IH]; [reflexivity|].
  cbn [all_word toLowerCase spaceless]. intros H.
  apply andb_true_iff in H as [Hc Hs]. rewrite (IH Hs), andb_true_r.
  revert Hc. destruct c as [[] [] [] [] [] [] [] []]; vm_compute; congruence.
Qed.

Lemma spaceless_append (s t : string) :
  spaceless s = true -> spaceless t = true -> spaceless (s +:+ t) = true.
Proof.
  intros Hs Ht. induction s as [|c s IH]; [exact Ht|].
  rewrite append_cons. cbn [spaceless] in *.
  apply andb_true_iff in Hs as [Hc Hs]. now rewrite Hc, IH.
Qed.

Lemma toExtension_spaceless (fileName : option string) :
  spaceless (toExtension fileName) = true.
Proof.
  destruct fileName as [fn|]; [|reflexivity]. unfold toExtension.
  destruct (String.eqb fn ""); [reflexivity|].
  apply spaceless_append; [reflexivity|].
  unfold matchedExtension, str_match.
  destruct (search extensionPattern true fn) as [caps|] eqn:Hs; [|reflexivity].
  apply search_extension_inv in Hs as (base & ext & _ & _ & Hw & ->).
  cbn [nth]. now apply lower_word_spaceless.
Qed.

Lemma toTypeJS_cases (content : jsval) (preview : bool) :
  toTypeJS content preview = "attachment--preview" \/
  toTypeJS content preview = "attachment--content" \/
  toTypeJS content preview = "attachment--file".
Proof. unfold toTypeJS. destruct preview, (truthy content); auto. Qed.

(** X17: with the default options, the figure a node is serialized into
    (content type and file name being strings) has among its class
    names [attachment], the type class of [toType] and, unless the file
    name is empty, the extension class of [toExtension], and no other
    class name; the selector of the second parse rule,
    [figure.attachment], matches it as well. *)
Theorem serialized_class_names
    (a : gmap string jsval) (content : list pmnode) (ct fn : string) :
  attr a "contentType" = VStr ct ->
  attr a "fileName" = VStr fn ->
  let type :=
    toTypeJS (attr a "content")
      (canPreview (truthy (attr a "previewable")) (Some ct)) in
  let extension := toExtension (Some fn) in
  exists input,
    serialize (PNode figureType a content) = Ok input /\
    (forall class,
        In class (classList (element input)) <->
        class = "attachment" \/ class = type \/
        (extension <> "" /\ class = extension)) /\
    (type = "attachment--preview" \/ type = "attachment--content" \/
     type = "attachment--file") /\
    (fn = "" <-> extension = "") /\
    Forall (fun rule => selects rule (element input) = true) parseHTML.
Proof.
  intros Hct Hfn type extension. unfold serialize.
  rewrite (renderHTML_figure defaultHTMLAttributes (PNode figureType a content)
             ct fn Hct Hfn).
  cbn [bind node_attrs node_content]. fold type extension.
  assert (Htype : spaceless type = true /\ type <> "").
  { destruct (toTypeJS_cases (attr a "content")
                (canPreview (truthy (attr a "previewable")) (Some ct)))
      as [H | [H | H]]; fold type in H; rewrite H; split;
      (reflexivity || discriminate). }
  destruct Htype as [Htype Hne].
  pose proof (toExtension_spaceless (Some fn)) as Hext. fold extension in Hext.
  assert (Hclass :
            classNames
              ("attachment" +:+ " " +:+ "attachment" +:+ " " +:+ type +:+ " " +:+
               extension) "" =
            "attachment" :: "attachment" :: type ::
              (if String.eqb extension "" then [] else [extension])).
  { rewrite (classNames_token "attachment") by reflexivity.
    rewrite classNames_space, append_nil.
    change (String.eqb "attachment" "") with false. cbv iota.
    rewrite (classNames_token "attachment") by reflexivity.
    rewrite classNames_space, append_nil.
    change (String.eqb "attachment" "") with false. cbv iota.
    rewrite (classNames_token type) by exact Htype.
    rewrite classNames_space, append_nil.
    rewrite (proj2 (String.eqb_neq type "") Hne).
    now rewrite (classNames_last extension Hext). }
  destruct (truthy (attr a "content"));
    cbn -[toExtension canPreview toTypeJS JSON_stringify attr append classNames];
    destruct (negb (negb _));
    (eexists; split; [reflexivity|]);
    unfold classList;
    cbn -[toExtension canPreview toTypeJS JSON_stringify attr append classNames];
    fold type extension; rewrite Hclass.
  all: split; [|split; [|split]].
  all: try (apply toTypeJS_cases).
  all: try (unfold extension, toExtension; split;
            [intros ->; reflexivity |
             destruct (String.eqb_spec fn "") as [->|Hfn0]; [reflexivity|];
             intros H; exfalso; rewrite append_cons in H; discriminate H]).
  all: try (intros class; destruct (String.eqb_spec extension "") as [He|He];
            cbn [In]; split; intros H; intuition congruence).
  all: repeat constructor.
Qed.

Lemma serialized_class_names_witness :
  exists input,
    serialize sampleFigure = Ok input /\
    In "attachment--png" (classList (element input)) /\
    In "attachment--preview" (classList (element input)).
Proof.
  destruct (serialized_class_names (node_attrs sampleFigure) [] "image/png" "a.png"
              eq_refl eq_refl) as (input & Hs & Hin & _).
  exists input. split; [exact Hs|]. split; apply Hin.
  - right. right. split; [discriminate|reflexivity].
  - right. left. reflexivity.
Defined.

(** ** A selected figure *)

(** A position strictly inside a child is found in that child. *)
Lemma findIndex_inside (l : list pmnode) (k : nat) (c : pmnode) (p : Z) :
  nth_error l k = Some c ->
  fragment_size (take k l) < p < fragment_size (take k l) + nodeSize c ->
  findIndex l p = Ok (k, fragment_size (take k l)).
Proof.
  intros Hc Hp.
  pose proof (take_size_S l k c Hc) as HS.
  pose proof (take_size_le l (S k)) as Hall.
  pose proof (fragment_size_nonneg_all (take k l)) as H0.
  destruct (findIndex_spec l p ltac:(lia)) as (i & off & Hfi & _ & Hcase).
  rewrite Hfi. pose proof (findIndex_offset l p i off Hfi) as Hoff.
  assert (Hik : i = k).
  { destruct (Nat.lt_trichotomy i k) as [Hlt | [Heq | Hgt]]; [|exact Heq|].
    - exfalso. pose proof (take_size_mono l i k ltac:(lia)).
      destruct Hcase as [Heq | (c' & Hc' & Hb' & _)]; [lia|].
      pose proof (take_size_S l i c' Hc').
      pose proof (take_size_mono l (S i) k ltac:(lia)). lia.
    - exfalso. pose proof (take_size_mono l (S k) i ltac:(lia)).
      destruct Hcase as [Heq | (c' & Hc' & Hb' & _)]; lia. }
  subst i. congruence.
Qed.

(** X18: with the anchor inside a top-level gallery, on a boundary
    between its figures (where it is when one of the figures is selected
    as a node), the command completes on a non-empty input and adds one
    step that inserts the new figures, in order, at the end of the
    content of that gallery, after its last figure. *)
Theorem setAttachment_appends_after_last_figure
    (options : gmap string jsval + list (gmap string jsval))
    (state : EditorState) (tr : Transaction) (dispatch : bool)
    (k j : nat) (t : node_type) (a : gmap string jsval) (figures : list pmnode) :
  tr_doc tr = doc state ->
  nth_error (node_content (doc state)) k = Some (PNode t a figures) ->
  name t = "attachment-gallery" ->
  isLeaf t = false ->
  anchor (selection state) =
    fragment_size (take k (node_content (doc state))) + 1 +
    fragment_size (take j figures) ->
  toAttachments options <> [] ->
  let at_ :=
    fragment_size (take k (node_content (doc state))) + 1 + fragment_size figures in
  exists tr',
    setAttachment options state tr dispatch =
    Ok {| returned := true; transaction := tr';
          dispatched := if dispatch then Some tr' else None |} /\
    tr_steps tr' =
    (tr_steps tr ++
     [{| step_from := at_; step_to := at_;
         step_content := map createFigure (toAttachments options) |}])%list.
Proof.
  intros Hdoc Hk Hname Hleaf Hanchor Hne at_.
  set (l := node_content (doc state)) in *.
  set (start := fragment_size (take k l)) in *.
  set (po := fragment_size (take j figures)) in *.
  pose proof (fragment_size_nonneg_all (take k l)) as Hstart0. fold start in Hstart0.
  pose proof (fragment_size_nonneg_all (take j figures)) as Hpo0. fold po in Hpo0.
  pose proof (take_size_le figures j) as Hpo. fold po in Hpo.
  pose proof (take_size_S l k _ Hk) as HS. fold start in HS.
  pose proof (take_size_le l (S k)) as Hall.
  rewrite nodeSize_PNode, Hleaf in HS.
  assert (Hcur : resolve (doc state) (anchor (selection state)) =
                 Ok {| pos := anchor (selection state);
                       path := [(doc state, k, 0 + start);
                                (PNode t a figures,
                                 fst (match findIndex figures po with
                                      | Ok io => io
                                      | Throw _ => (O, 0)
                                      end),
                                 0 + start + 1 + po)];
                       parentOffset := po |}).
  { unfold resolve, content_size. fold l.
    replace ((0 <=? anchor (selection state)) &&
             (anchor (selection state) <=? fragment_size l)) with true by lia.
    cbn [resolve_loop]. fold l.
    rewrite (findIndex_inside l k (PNode t a figures) (anchor (selection state)) Hk)
      by (rewrite nodeSize_PNode, Hleaf; fold start; lia).
    fold start. cbn [bind].
    replace (anchor (selection state) - start =? 0) with false by lia.
    rewrite Hk. cbn [isText].
    destruct (Z.to_nat (anchor (selection state))) as [|fuel] eqn:Hfuel; [lia|].
    cbn [resolve_loop node_content].
    replace (anchor (selection state) - start - 1) with po by lia.
    destruct (findIndex_boundary figures j) as [i Hi]. fold po in Hi.
    rewrite Hi. cbn [bind fst]. rewrite Z.sub_diag. cbn [Z.eqb bind app fst snd].
    reflexivity. }
  destruct (resolve_total (doc state) (clampBefore (anchor (selection state))))
    as [bef Hbef].
  { unfold clampBefore, content_size. fold l.
    destruct (anchor (selection state) - 2 <? 0) eqn:E; lia. }
  destruct (setAttachment_in_gallery_step options state tr dispatch _ bef true
              Hdoc Hcur Hbef) as (tr' & Hrun & Hsteps & _).
  - unfold isInGalleryCurrent, rp_node, path_node. cbn [path nth_error].
    unfold isGallery. cbn [type_name]. now rewrite Hname.
  - reflexivity.
  - exists tr'. split; [exact Hrun|]. rewrite Hsteps.
    destruct (toAttachments options) as [|x xs]; [congruence|].
    cbn [map]. do 3 f_equal;
      unfold rp_end, rp_start, rp_node, depth, path_start, path_node, content_size;
      cbn [path length Nat.sub nth_error node_content]; subst at_; lia.
Qed.

Lemma setAttachment_appends_after_last_figure_witness :
  exists tr',
    setAttachment (inl sampleAttachment) stateFigureSelected
      (freshTransaction stateFigureSelected) true =
    Ok {| returned := true; transaction := tr'; dispatched := Some tr' |} /\
    tr_steps tr' =
    [{| step_from := 3; step_to := 3; step_content := [sampleFigure] |}].
Proof.
  destruct (setAttachment_appends_after_last_figure (inl sampleAttachment)
              stateFigureSelected (freshTransaction stateFigureSelected) true
              0 0 galleryType ∅ [sampleFigure]
              eq_refl eq_refl eq_refl eq_refl eq_refl ltac:(discriminate))
    as (tr' & Hrun & Hsteps).
  exists tr'. split; [exact Hrun|]. rewrite Hsteps. reflexivity.
Defined.

(** ** The block after a gallery *)

(** The path of a resolved position goes on from the node it is
    resolved in. *)
Lemma resolve_loop_head (fuel : nat) :
  forall (node : pmnode) (start po : Z) (pth pth' : list (pmnode * nat * Z))
         (po' : Z),
    resolve_loop fuel node start po pth = Ok (pth', po') ->
    exists i e rest, pth' = (pth ++ (node, i, e) :: rest)%list.
Proof.
  induction fuel as [|fuel IH]; intros node start po pth pth' po' H; [discriminate|].
  cbn [resolve_loop] in H.
  destruct (findIndex (node_content node) po) as [[i off]|]; cbn [bind] in H;
    [|discriminate].
  destruct (po - off =? 0); [inversion H; subst; eauto|].
  destruct (nth_error (node_content node) i) as [child|]; [|discriminate].
  destruct (isText child); [inversion H; subst; eauto|].
  apply IH in H as (i' & e' & rest & ->).
  rewrite <- app_assoc. cbn [app]. eauto.
Qed.

(** X19: with a gallery followed by another block and the cursor at the
    start of the content of that block, the position two before the
    anchor is the end of the content of the gallery, the second gallery
    check holds, and the command inserts the new figures two positions
    before the end of the block of the cursor.  For an empty block this
    is the end of the content of the gallery; content in the block moves
    it on by the size of that content, past the gallery. *)
Theorem setAttachment_after_gallery
    (options : gmap string jsval + list (gmap string jsval))
    (state : EditorState) (tr : Transaction) (dispatch : bool) (k : nat)
    (tg tb : node_type) (ag ab : gmap string jsval) (figures inner : list pmnode) :
  tr_doc tr = doc state ->
  nth_error (node_content (doc state)) k = Some (PNode tg ag figures) ->
  name tg = "attachment-gallery" -> isLeaf tg = false ->
  nth_error (node_content (doc state)) (S k) = Some (PNode tb ab inner) ->
  name tb <> "attachment-gallery" -> isLeaf tb = false ->
  anchor (selection state) =
    fragment_size (take (S k) (node_content (doc state))) + 1 ->
  toAttachments options <> [] ->
  let galleryEnd :=
    fragment_size (take k (node_content (doc state))) + 1 + fragment_size figures in
  let at_ := galleryEnd + fragment_size inner in
  clampBefore (anchor (selection state)) = galleryEnd /\
  exists tr',
    setAttachment options state tr dispatch =
    Ok {| returned := true; transaction := tr';
          dispatched := if dispatch then Some tr' else None |} /\
    tr_steps tr' =
    (tr_steps tr ++
     [{| step_from := at_; step_to := at_;
         step_content := map createFigure (toAttachments options) |}])%list.
Proof.
  intros Hdoc Hk Hgallery Hleafg Hk1 Hblock Hleafb Hanchor Hne galleryEnd at_.
  set (l := node_content (doc state)) in *.
  set (start := fragment_size (take k l)) in *.
  set (next := fragment_size (take (S k) l)) in *.
  pose proof (fragment_size_nonneg_all (take k l)) as Hstart0. fold start in Hstart0.
  pose proof (fragment_size_nonneg_all figures) as Hfig0.
  pose proof (fragment_size_nonneg_all inner) as Hinner0.
  pose proof (take_size_S l k _ Hk) as HS. fold start next in HS.
  pose proof (take_size_S l (S k) _ Hk1) as HS1. fold next in HS1.
  pose proof (take_size_le l (S (S k))) as Hall.
  rewrite nodeSize_PNode, Hleafg in HS. rewrite nodeSize_PNode, Hleafb in HS1.
  assert (Hbefore : clampBefore (anchor (selection state)) = galleryEnd).
  { unfold clampBefore. subst galleryEnd.
    destruct (anchor (selection state) - 2 <? 0) eqn:E; lia. }
  split; [exact Hbefore|].
  assert (Hcur : resolve (doc state) (anchor (selection state)) =
                 Ok {| pos := anchor (selection state);
                       path := [(doc state, S k, 0 + next);
                                (PNode tb ab inner, O, 0 + next + 1 + 0)];
                       parentOffset := 0 |}).
  { unfold resolve, content_size. fold l.
    replace ((0 <=? anchor (selection state)) &&
             (anchor (selection state) <=? fragment_size l)) with true by lia.
    cbn [resolve_loop]. fold l.
    rewrite (findIndex_inside l (S k) (PNode tb ab inner)
               (anchor (selection state)) Hk1)
      by (rewrite nodeSize_PNode, Hleafb; fold next; lia).
    fold next. cbn [bind].
    replace (anchor (selection state) - next =? 0) with false by lia.
    rewrite Hk1. cbn [isText].
    destruct (Z.to_nat (anchor (selection state))) as [|fuel] eqn:Hfuel; [lia|].
    replace (anchor (selection state) - next - 1) with 0 by lia.
    cbn [resolve_loop node_content findIndex Z.eqb bind].
    rewrite Z.sub_diag. cbn [Z.eqb app]. reflexivity. }
  destruct (resolve_total (doc state) galleryEnd) as [bef Hbef].
  { unfold content_size. fold l. subst galleryEnd. lia. }
  assert (Hafter : isInGalleryAfter bef = true).
  { unfold resolve in Hbef.
    destruct ((0 <=? galleryEnd) && (galleryEnd <=? content_size (doc state)));
      [|discriminate].
    cbn [resolve_loop] in Hbef. fold l in Hbef.
    rewrite (findIndex_inside l k (PNode tg ag figures) galleryEnd Hk) in Hbef
      by (rewrite nodeSize_PNode, Hleafg; fold start; subst galleryEnd; lia).
    fold start in Hbef. cbn [bind] in Hbef.
    replace (galleryEnd - start =? 0) with false in Hbef by (subst galleryEnd; lia).
    rewrite Hk in Hbef. cbn [isText] in Hbef.
    destruct (resolve_loop _ (PNode tg ag figures) _ _ _) as [[pth po]|] eqn:Hloop;
      cbn [bind] in Hbef; [|discriminate].
    inversion Hbef; subst bef; clear Hbef.
    apply resolve_loop_head in Hloop as (i & e & rest & ->).
    unfold isInGalleryAfter, rp_node, path_node. cbn [path fst app nth_error].
    unfold isGallery. cbn [type_name]. now rewrite Hgallery, String.eqb_refl. }
  rewrite <- Hbefore in Hbef.
  destruct (setAttachment_in_gallery_step options state tr dispatch _ bef false
              Hdoc Hcur Hbef) as (tr' & Hrun & Hsteps & _).
  - unfold isInGalleryCurrent, rp_node, path_node. cbn [path nth_error].
    unfold isGallery. cbn [type_name].
    now rewrite (proj2 (String.eqb_neq _ _) Hblock).
  - exact Hafter.
  - exists tr'. split; [exact Hrun|]. rewrite Hsteps.
    destruct (toAttachments options) as [|x xs]; [congruence|].
    cbn [map]. do 3 f_equal;
      unfold rp_end, rp_start, rp_node, depth, path_start, path_node, content_size;
      cbn [path length Nat.sub nth_error node_content]; subst at_ galleryEnd; lia.
Qed.

Lemma setAttachment_after_gallery_witness :
  exists tr',
    setAttachment (inl sampleAttachment) stateAfterGallery
      (freshTransaction stateAfterGallery) false =
    Ok {| returned := true; transaction := tr'; dispatched := None |} /\
    tr_steps tr' =
    [{| step_from := 3; step_to := 3; step_content := [sampleFigure] |}].
Proof.
  destruct (setAttachment_after_gallery (inl sampleAttachment)
              stateAfterGallery (freshTransaction stateAfterGallery) false
              0 galleryType paragraphType ∅ ∅ [sampleFigure] []
              eq_refl eq_refl eq_refl eq_refl eq_refl ltac:(discriminate)
              eq_refl eq_refl ltac:(discriminate))
    as (_ & tr' & Hrun & Hsteps).
  exists tr'. split; [exact Hrun|]. rewrite Hsteps. reflexivity.
Defined.

(** ** The step that makes a new gallery *)








(** C9 (amended): with an empty input, the anchor inside a top-level
    block and the selection inside the document, its lower end not at
    the very start, the command raises no error on a transaction over
    the document of the state and returns [true]; when a gallery check
    holds it leaves the transaction as it was, and otherwise it adds one
    step, the content of which is an empty paragraph, a gallery without
    children and an empty paragraph. *)
Theorem setAttachment_empty_input
    (state : EditorState) (tr : Transaction) (dispatch : bool)
    (cur : ResolvedPos) (n : pmnode) :
  tr_doc tr = doc state ->
  1 <= sel_from (selection state) ->
  sel_to (selection state) <= content_size (doc state) ->
  resolve (doc state) (anchor (selection state)) = Ok cur ->
  rp_node cur 1 = Some n ->
  exists bef tr',
    resolve (doc state) (clampBefore (anchor (selection state))) = Ok bef /\
    setAttachment (inr []) state tr dispatch =
    Ok {| returned := true; transaction := tr';
          dispatched := if dispatch then Some tr' else None |} /\
    if isGallery n || isInGalleryAfter bef then tr' = tr
    else
      exists st,
        tr_steps tr' = (tr_steps tr ++ [st])%list /\
        step_content st = [emptyParagraph; createGallery []; emptyParagraph].
Proof.
  intros Hdoc Hfrom Hto Hcur Hnode.
  assert (Hanchor : 1 <= anchor (selection state) <= content_size (doc state)).
  { unfold sel_from, sel_to in *. lia. }
  destruct (resolve_total (doc state) (clampBefore (anchor (selection state))))
    as [bef Hbef].
  { unfold clampBefore. destruct (anchor (selection state) - 2 <? 0) eqn:E; lia. }
  assert (Hc : isInGalleryCurrent cur = Ok (isGallery n)).
  { unfold isInGalleryCurrent. now rewrite Hnode. }
  exists bef.
  destruct (isGallery n || isInGalleryAfter bef) eqn:Hg.
  - exists tr. split; [exact Hbef|]. split; [|reflexivity].
    rewrite (setAttachment_in_gallery _ _ _ _ cur bef (isGallery n) Hcur Hbef Hc Hg).
    unfold tr_insert, tr_replaceWith. cbn [toAttachments map fragment_size].
    rewrite Z.eqb_refl. reflexivity.
  - apply orb_false_iff in Hg as [Hcurrent Hafter]. rewrite Hcurrent in Hc.
    eexists. split; [exact Hbef|]. split.
    + apply (setAttachment_new_gallery (inr []) state tr dispatch cur bef
               Hcur Hbef Hc Hafter);
        unfold in_range; rewrite Hdoc; unfold sel_from, sel_to in *; lia.
    + eexists. split; reflexivity.
Qed.

Lemma setAttachment_empty_input_witness :
  exists tr' st,
    setAttachment (inr []) stateInParagraph
      (freshTransaction stateInParagraph) false =
    Ok {| returned := true; transaction := tr'; dispatched := None |} /\
    tr_steps tr' = [st] /\
    step_content st = [emptyParagraph; createGallery []; emptyParagraph].
Proof.
  eassert (Hcur : resolve (doc stateInParagraph) 2 = Ok _)
    by (vm_compute; reflexivity).
  destruct (setAttachment_empty_input stateInParagraph
              (freshTransaction stateInParagraph) false _ (paragraph "ab")
              eq_refl ltac:(vm_compute; discriminate) ltac:(vm_compute; discriminate)
              Hcur eq_refl)
    as (bef & tr' & Hbef & Hrun & Hsteps).
  vm_compute in Hbef. inversion Hbef; subst bef; clear Hbef.
  destruct Hsteps as (st & Hs & Hcontent).
  exists tr', st. split; [exact Hrun|]. split; [exact Hs|exact Hcontent].
Defined.
